(** * txt_to_epub: the paragraph and chapter inference engine

    A shallow embedding of the text-processing core of [txt_to_epub.py]
    (the nested helpers [has_indent], [remove_indent], [process_paragraphs]
    and the chapter loop of [txt_to_epub]), followed by the properties of
    the segmentation that the specification states.

    Python strings are sequences of Unicode code points: a [str] is a list
    of code points, a code point is an [N].  The packaging of the chapters
    into an EPUB container (ebooklib) is outside the embedding. *)

From Stdlib Require Import List NArith Bool Arith Lia DecimalN FinFun.
Import ListNotations.

Local Open Scope N_scope.
Local Open Scope list_scope.

(** ** Python strings *)

Definition char := N.
Definition str := list char.

Definition str_eqb (a b : str) : bool :=
  if list_eq_dec N.eq_dec a b then true else false.

(** Truthiness of a Python sequence: [if xs:] holds when [xs] is not empty. *)
Definition truthy {A} (xs : list A) : bool :=
  match xs with [] => false | _ :: _ => true end.

(** [c in chars] for a character [c] and a string [chars]. *)
Definition char_in (c : char) (chars : str) : bool := existsb (N.eqb c) chars.

(** [str.isspace] on one code point: the white-space table of CPython
    ([_PyUnicode_IsWhitespace]). *)
Definition isspace (c : char) : bool :=
  ((0x09 <=? c) && (c <=? 0x0D)) || ((0x1C <=? c) && (c <=? 0x20))
  || (c =? 0x85) || (c =? 0xA0) || (c =? 0x1680)
  || ((0x2000 <=? c) && (c <=? 0x200A))
  || (c =? 0x2028) || (c =? 0x2029) || (c =? 0x202F) || (c =? 0x205F)
  || (c =? 0x3000).

Fixpoint dropwhile {A} (p : A -> bool) (xs : list A) : list A :=
  match xs with
  | [] => []
  | x :: r => if p x then dropwhile p r else xs
  end.

(** [s.lstrip(chars)], [s.lstrip()], [s.rstrip()], [s.strip()]. *)
Definition lstrip_chars (chars : str) (s : str) : str :=
  dropwhile (fun c => char_in c chars) s.
Definition lstrip (s : str) : str := dropwhile isspace s.
Definition rstrip (s : str) : str := rev (dropwhile isspace (rev s)).
Definition strip (s : str) : str := rstrip (lstrip s).

(** [s.startswith(prefix)]. *)
Fixpoint startswith (s prefix : str) {struct prefix} : bool :=
  match prefix, s with
  | [], _ => true
  | _ :: _, [] => false
  | p :: prefix', c :: s' => (c =? p) && startswith s' prefix'
  end.

(** [sep.join(parts)]. *)
Fixpoint join (sep : str) (parts : list str) : str :=
  match parts with
  | [] => []
  | [p] => p
  | p :: rest => p ++ sep ++ join sep rest
  end.

(** [s.split("\n")]: never empty, one more piece than there are newlines. *)
Fixpoint split_newline (s : str) : list str :=
  match s with
  | [] => [[]]
  | c :: r =>
      if c =? 0x0A then [] :: split_newline r
      else match split_newline r with
           | [] => [[c]]
           | h :: t => (c :: h) :: t
           end
  end.

(** ** String constants of the source *)

Definition FULLWIDTH_SPACE : char := 0x3000.
Definition SPACE : char := 0x20.
Definition TAB : char := 0x09.

(** ["前言"], the title of the implicit first chapter. *)
Definition PREFACE : str := [0x524D; 0x8A00].
(** ["<p>"] and ["</p>"]. *)
Definition P_OPEN : str := [0x3C; 0x70; 0x3E].
Definition P_CLOSE : str := [0x3C; 0x2F; 0x70; 0x3E].
(** The characters that end a paragraph in the punctuation fallback, in the
    order of the source literal: ideographic full stop, full-width
    exclamation mark, full-width question mark, full stop, exclamation mark,
    question mark, double quote, apostrophe, right corner bracket, right
    double angle bracket, right parenthesis, full-width right parenthesis. *)
Definition PARA_END_CHARS : str :=
  [0x3002; 0xFF01; 0xFF1F; 0x2E; 0x21; 0x3F; 0x22; 0x27; 0x300D; 0x300B;
   0x29; 0xFF09].
(** The mode names ["line"], ["blank"], ["smart"]. *)
Definition MODE_LINE : str := [0x6C; 0x69; 0x6E; 0x65].
Definition MODE_BLANK : str := [0x62; 0x6C; 0x61; 0x6E; 0x6B].
Definition MODE_SMART : str := [0x73; 0x6D; 0x61; 0x72; 0x74].

(** ** Line classifier *)

(** [has_indent(line)]: the line starts with a full-width space, with two
    ordinary spaces, or with a tab. *)
Definition has_indent (line : str) : bool :=
  if negb (truthy line) then false
  else if startswith line [FULLWIDTH_SPACE] then true
  else if startswith line [SPACE; SPACE] || startswith line [TAB] then true
  else false.

(** [remove_indent(line)]: left-strip full-width spaces, then spaces and tabs. *)
Definition remove_indent (line : str) : str :=
  if negb (truthy line) then []
  else
    let line := lstrip_chars [FULLWIDTH_SPACE] line in
    let line := lstrip_chars [SPACE; TAB] line in
    line.

(** A line is blank when nothing is left of it after [strip()]. *)
Definition is_blank (line : str) : bool := negb (truthy (strip line)).

(** ** Paragraph segmenter *)

(** [indent_str]: two full-width spaces if [add_indent], else the empty
    string. *)
Definition indent_str (add_indent : bool) : str :=
  if add_indent then [FULLWIDTH_SPACE; FULLWIDTH_SPACE] else [].

(** [f"<p>{indent_str}{text}</p>"]. *)
Definition p_tag (add_indent : bool) (text : str) : str :=
  P_OPEN ++ indent_str add_indent ++ text ++ P_CLOSE.

(** The loops of [process_paragraphs] mutate two lists, [paragraphs] and
    [current_para]; a loop state is that pair, and [append] is [++ [x]]. *)
Definition seg_state : Type := list str * list str.

(** The closing [if current_para: paragraphs.append(...)] of the loops. *)
Definition finish (add_indent : bool) (st : seg_state) : list str :=
  let '(paragraphs, current_para) := st in
  if truthy current_para
  then paragraphs ++ [p_tag add_indent (concat current_para)]
  else paragraphs.

(** Body of the loop of mode ["line"]. *)
Definition line_step (add_indent : bool) (paragraphs : list str) (line : str)
  : list str :=
  let original_line := line in
  let line := strip line in
  if negb (truthy line) then paragraphs
  else if has_indent original_line then
    let clean_text := strip (remove_indent original_line) in
    paragraphs ++ [p_tag add_indent clean_text]
  else paragraphs ++ [p_tag add_indent line].

(** Body of the loop of mode ["blank"]. *)
Definition blank_step (add_indent : bool) (st : seg_state) (line : str)
  : seg_state :=
  let '(paragraphs, current_para) := st in
  let stripped_line := strip line in
  if negb (truthy stripped_line) then
    if truthy current_para
    then (paragraphs ++ [p_tag add_indent (concat current_para)], [])
    else (paragraphs, current_para)
  else if has_indent line && truthy current_para then
    (paragraphs ++ [p_tag add_indent (concat current_para)],
     [] ++ [strip (remove_indent line)])
  else if has_indent line then
    (paragraphs, current_para ++ [strip (remove_indent line)])
  else (paragraphs, current_para ++ [stripped_line]).

(** Body of the loop of the indentation branch of mode ["smart"]. *)
Definition indent_step (add_indent : bool) (st : seg_state) (line : str)
  : seg_state :=
  let '(paragraphs, current_para) := st in
  let stripped_line := strip line in
  if negb (truthy stripped_line) then
    if truthy current_para
    then (paragraphs ++ [p_tag add_indent (concat current_para)], [])
    else (paragraphs, current_para)
  else if has_indent line then
    let '(paragraphs, current_para) :=
      if truthy current_para
      then (paragraphs ++ [p_tag add_indent (concat current_para)], [])
      else (paragraphs, current_para) in
    (paragraphs, current_para ++ [strip (remove_indent line)])
  else (paragraphs, current_para ++ [stripped_line]).

(** Body of the loop of the punctuation branch of mode ["smart"];
    [line[-1]] is the last character of the stripped line. *)
Definition punct_step (add_indent : bool) (st : seg_state) (line : str)
  : seg_state :=
  let '(paragraphs, current_para) := st in
  let line := strip line in
  if negb (truthy line) then (paragraphs, current_para)
  else
    let is_end_of_para := truthy line && char_in (last line 0) PARA_END_CHARS in
    let current_para := current_para ++ [line] in
    if is_end_of_para
    then (paragraphs ++ [p_tag add_indent (concat current_para)], [])
    else (paragraphs, current_para).

(** [any(has_indent(line) for line in text_lines if line.strip())] and
    [any(not line.strip() for line in text_lines)]. *)
Definition has_indented_lines (text_lines : list str) : bool :=
  existsb has_indent (filter (fun line => truthy (strip line)) text_lines).
Definition has_blank_lines (text_lines : list str) : bool :=
  existsb (fun line => negb (truthy (strip line))) text_lines.

Definition process_line (text_lines : list str) (add_indent : bool) : list str :=
  fold_left (line_step add_indent) text_lines [].
Definition process_blank (text_lines : list str) (add_indent : bool) : list str :=
  finish add_indent (fold_left (blank_step add_indent) text_lines ([], [])).
Definition process_indent (text_lines : list str) (add_indent : bool) : list str :=
  finish add_indent (fold_left (indent_step add_indent) text_lines ([], [])).
Definition process_punct (text_lines : list str) (add_indent : bool) : list str :=
  finish add_indent (fold_left (punct_step add_indent) text_lines ([], [])).

(** [process_paragraphs(text_lines, mode, add_indent)].  The recursive call
    [process_paragraphs(text_lines, "blank", add_indent)] of the smart mode
    is the ["blank"] branch itself, [process_blank].  A mode that is none of
    the three names falls through every [elif] and returns the empty list. *)
Definition process_paragraphs (text_lines : list str) (mode : str)
    (add_indent : bool) : list str :=
  if str_eqb mode MODE_LINE then process_line text_lines add_indent
  else if str_eqb mode MODE_BLANK then process_blank text_lines add_indent
  else if str_eqb mode MODE_SMART then
    if has_indented_lines text_lines then process_indent text_lines add_indent
    else if has_blank_lines text_lines then process_blank text_lines add_indent
    else process_punct text_lines add_indent
  else [].

(** The text of a rendered paragraph: what is left of it without the
    opening tag, the indent marker and the closing tag. *)
Definition para_body (add_indent : bool) (p : str) : str :=
  let inner := skipn (length P_OPEN + length (indent_str add_indent)) p in
  firstn (length inner - length P_CLOSE) inner.

(** ** Chapter splitter *)

(** The meaning of the default [chapter_pattern], [^第.+章.*$], under
    [re.match] (no flags): the character 第, at least one character, the
    character 章, then any characters; [.] matches no newline and [$]
    matches at the end or before a final newline. *)
Fixpoint pattern_tail (s : str) : bool :=
  match s with
  | [] => true
  | [_] => true
  | c :: r => negb (c =? 0x0A) && pattern_tail r
  end.

Fixpoint pattern_rest (seen : bool) (s : str) : bool :=
  match s with
  | [] => false
  | c :: r =>
      (seen && (c =? 0x7AE0) && pattern_tail r)
      || (negb (c =? 0x0A) && pattern_rest true r)
  end.

Definition default_chapter_pattern (s : str) : bool :=
  match s with
  | [] => false
  | c :: r => (c =? 0x7B2C) && pattern_rest false r
  end.

Definition NEWLINE : str := [0x0A].

Section ChapterSplitter.

(** [chapter_regex s] is [chapter_regex.match(s)] seen as a truth value;
    [paragraph_mode] and [force_indent] are the arguments of
    [txt_to_epub]. *)
Variable chapter_regex : str -> bool.
Variable paragraph_mode : str.
Variable force_indent : bool.

(** The state of the chapter loop: [chapters], [current_title] and
    [chapter_lines]. *)
Definition split_state : Type := list (str * str) * str * list str.

(** The block that ends a chapter, written twice in the source (at a
    heading and after the loop). *)
Definition close_chapter (chapters : list (str * str)) (current_title : str)
    (chapter_lines : list str) : list (str * str) :=
  if truthy chapter_lines then
    let chapter_content :=
      process_paragraphs chapter_lines paragraph_mode force_indent in
    if truthy chapter_content
    then chapters ++ [(current_title, join NEWLINE chapter_content)]
    else chapters
  else chapters.

Definition chapter_step (st : split_state) (line : str) : split_state :=
  let '(chapters, current_title, chapter_lines) := st in
  if negb (truthy (strip line)) then
    (chapters, current_title, chapter_lines ++ [[]])
  else if chapter_regex (strip line) then
    (close_chapter chapters current_title chapter_lines, strip line, [])
  else (chapters, current_title, chapter_lines ++ [line]).

Definition chapters_of_lines (lines : list str) : list (str * str) :=
  let '(chapters, current_title, chapter_lines) :=
    fold_left chapter_step lines ([], PREFACE, []) in
  close_chapter chapters current_title chapter_lines.

(** The chapter list of [txt_to_epub] for the decoded file [content]. *)
Definition txt_to_epub (content : str) : list (str * str) :=
  chapters_of_lines (split_newline content).

(** The same loop, keeping for each chapter the list [chapter_content]
    that the source joins with newlines when it appends the chapter. *)
Definition para_state : Type := list (str * list str) * str * list str.

Definition close_chapter_paras (chapters : list (str * list str))
    (current_title : str) (chapter_lines : list str)
  : list (str * list str) :=
  if truthy chapter_lines then
    let chapter_content :=
      process_paragraphs chapter_lines paragraph_mode force_indent in
    if truthy chapter_content
    then chapters ++ [(current_title, chapter_content)]
    else chapters
  else chapters.

Definition chapter_paras_step (st : para_state) (line : str) : para_state :=
  let '(chapters, current_title, chapter_lines) := st in
  if negb (truthy (strip line)) then
    (chapters, current_title, chapter_lines ++ [[]])
  else if chapter_regex (strip line) then
    (close_chapter_paras chapters current_title chapter_lines, strip line, [])
  else (chapters, current_title, chapter_lines ++ [line]).

Definition chapter_paras_of_lines (lines : list str)
  : list (str * list str) :=
  let '(chapters, current_title, chapter_lines) :=
    fold_left chapter_paras_step lines ([], PREFACE, []) in
  close_chapter_paras chapters current_title chapter_lines.

Definition txt_to_epub_paragraphs (content : str) : list (str * list str) :=
  chapter_paras_of_lines (split_newline content).

(** *** The splitting, stated on the line sequence *)

(** A heading is a non-blank line whose stripped text matches the pattern;
    a content line is a non-blank line that is no heading. *)
Definition is_heading (line : str) : bool :=
  negb (is_blank line) && chapter_regex (strip line).
Definition is_content (line : str) : bool :=
  negb (is_blank line) && negb (chapter_regex (strip line)).

(** The lines before the first heading, and for each heading its stripped
    text with the lines up to the next heading; a blank line is kept as
    the empty string. *)
Fixpoint split_at_headings (lines : list str)
  : list str * list (str * list str) :=
  match lines with
  | [] => ([], [])
  | l :: rest =>
      let '(cur, others) := split_at_headings rest in
      if is_blank l then ([] :: cur, others)
      else if chapter_regex (strip l) then ([], (strip l, cur) :: others)
      else (l :: cur, others)
  end.

Definition segments (lines : list str) : list (str * list str) :=
  let '(first, others) := split_at_headings lines in
  (PREFACE, first) :: others.

(** What the loop feeds to the segmenter for a line, and the line sequence
    rebuilt from the segments (each title in front of its lines). *)
Definition seen_as (line : str) : str :=
  if is_blank line then [] else if chapter_regex (strip line) then strip line
  else line.
Definition rejoin (segs : list (str * list str)) : list str :=
  flat_map (fun seg => fst seg :: snd seg) segs.

Definition segment_result (seg : str * list str) : str * list str :=
  (fst seg, process_paragraphs (snd seg) paragraph_mode force_indent).

End ChapterSplitter.

(** ** The segmentation as the specification words it *)

(** The three segmentation modes of the configuration surface. *)
Inductive seg_mode : Type := Line | Blank | Smart.

Definition mode_name (m : seg_mode) : str :=
  match m with Line => MODE_LINE | Blank => MODE_BLANK | Smart => MODE_SMART end.

(** The branch that the smart mode takes for a chapter. *)
Inductive smart_choice : Type := ByIndent | ByBlank | ByPunctuation.

Definition smart_branch (text_lines : list str) : smart_choice :=
  if has_indented_lines text_lines then ByIndent
  else if has_blank_lines text_lines then ByBlank
  else ByPunctuation.

(** The text a line contributes: indentation, once detected, is stripped
    before the content is used; any other line is used trimmed. *)
Definition fragment (line : str) : str :=
  if has_indent line then strip (remove_indent line) else strip line.

(** Flushing a buffer gives one paragraph, or nothing for an empty buffer. *)
Definition flush (buf : list str) : list (list str) :=
  if truthy buf then [buf] else [].

(** Blank mode: a blank line flushes the buffer; an indented line met while
    the buffer is not empty flushes it and starts a new buffer; any other
    line is added to the buffer; the end of input flushes. *)
Fixpoint spec_blank_groups (buf : list str) (lines : list str)
  : list (list str) :=
  match lines with
  | [] => flush buf
  | l :: rest =>
      if is_blank l then flush buf ++ spec_blank_groups [] rest
      else if has_indent l && truthy buf
      then buf :: spec_blank_groups [fragment l] rest
      else spec_blank_groups (buf ++ [fragment l]) rest
  end.

(** Indentation as the delimiter: an indented line flushes then starts a new
    buffer, a blank line only flushes. *)
Fixpoint spec_indent_groups (buf : list str) (lines : list str)
  : list (list str) :=
  match lines with
  | [] => flush buf
  | l :: rest =>
      if is_blank l then flush buf ++ spec_indent_groups [] rest
      else if has_indent l
      then flush buf ++ spec_indent_groups [fragment l] rest
      else spec_indent_groups (buf ++ [fragment l]) rest
  end.

(** A line ends a sentence when its last character is a terminator. *)
Definition ends_sentence (text : str) : bool :=
  match rev text with
  | [] => false
  | c :: _ => char_in c PARA_END_CHARS
  end.

(** Punctuation fallback: the trimmed line is appended, and the buffer is
    flushed right after a line that ends a sentence; the end flushes. *)
Fixpoint spec_punct_groups (buf : list str) (lines : list str)
  : list (list str) :=
  match lines with
  | [] => flush buf
  | l :: rest =>
      let buf' := buf ++ [strip l] in
      if ends_sentence (strip l) then buf' :: spec_punct_groups [] rest
      else spec_punct_groups buf' rest
  end.

(** A paragraph is its fragments concatenated with no separator, rendered. *)
Definition render_groups (add_indent : bool) (groups : list (list str))
  : list str :=
  map (fun g => p_tag add_indent (concat g)) groups.

(** The stripped texts of the non-blank lines, in order. *)
Definition nonblank_texts (lines : list str) : list str :=
  map strip (filter (fun l => negb (is_blank l)) lines).

(** The groups of a chapter under each mode. *)
Definition mode_groups (m : seg_mode) (lines : list str) : list (list str) :=
  match m with
  | Line => map (fun t => [t]) (nonblank_texts lines)
  | Blank => spec_blank_groups [] lines
  | Smart =>
      match smart_branch lines with
      | ByIndent => spec_indent_groups [] lines
      | ByBlank => spec_blank_groups [] lines
      | ByPunctuation => spec_punct_groups [] lines
      end
  end.

(** Runs of non-blank lines between blank lines, and the indented lines that
    come in a run after its first line. *)
Fixpoint count_runs (in_run : bool) (lines : list str) : nat :=
  match lines with
  | [] => 0
  | l :: rest =>
      if is_blank l then count_runs false rest
      else ((if in_run then 0 else 1) + count_runs true rest)%nat
  end.

Fixpoint count_midrun_indented (in_run : bool) (lines : list str) : nat :=
  match lines with
  | [] => 0
  | l :: rest =>
      if is_blank l then count_midrun_indented false rest
      else ((if in_run && has_indent l then 1 else 0)
            + count_midrun_indented true rest)%nat
  end.

(** A text that starts with a character that is no white space. *)
Definition starts_solid (text : str) : bool :=
  match text with
  | [] => false
  | c :: _ => negb (isspace c)
  end.


(** The chapters that are kept: a segment without paragraphs is dropped. *)
Definition kept_chapters (paragraph_mode : str) (force_indent : bool)
    (segs : list (str * list str)) : list (str * list str) :=
  filter (fun c => truthy (snd c))
         (map (segment_result paragraph_mode force_indent) segs).

(** A chapter as the loop appends it: the paragraphs joined by newlines. *)
Definition joined (c : str * list str) : str * str :=
  (fst c, join NEWLINE (snd c)).

(** The paragraphs of a chapter keep the order of its lines: they are the
    renderings of consecutive, non-empty groups of the stripped non-blank
    lines. *)
Definition ordered_paragraphs (add_indent : bool) (lines : list str)
    (paragraphs : list str) : Prop :=
  exists groups,
    paragraphs = render_groups add_indent groups
    /\ concat groups = nonblank_texts lines
    /\ Forall (fun g => g <> []) groups.

(** The segments cut the line sequence at its headings, in order: putting
    each title back in front of its lines gives the sequence the loop saw;
    no line of a segment is a heading; the first title is the preface label
    and every other title is the stripped text of a heading line. *)
Definition heading_split (chapter_regex : str -> bool) (lines : list str)
    (segs : list (str * list str)) : Prop :=
  rejoin segs = PREFACE :: map (seen_as chapter_regex) lines
  /\ Forall (fun seg =>
               Forall (fun l => is_heading chapter_regex l = false) (snd seg))
            segs
  /\ exists first others,
       segs = (PREFACE, first) :: others
       /\ Forall (fun seg =>
                    exists l, In l lines /\ is_heading chapter_regex l = true
                              /\ fst seg = strip l)
                 others.

(** ** Chapter files *)









(** ** Further notions for the properties of the segmenter *)

(** What the chapter loop stores for a line that is no heading: the empty
    string for a blank line, the line itself otherwise. *)
Definition blank_to_empty (line : str) : str :=
  if is_blank line then [] else line.

(** A text whose last character is no white space. *)
Definition ends_solid (text : str) : bool := starts_solid (rev text).

(** A string without newline character. *)
Definition no_newline (s : str) : Prop := ~ In 0x0A s.

(** ** Sample inputs *)

(** 甲。 / 乙！ / 丙 *)
Definition JIA_STOP : str := [0x7532; 0x3002].
Definition YI_BANG : str := [0x4E59; 0xFF01].
Definition BING : str := [0x4E19].
Definition SMART_SAMPLE : list str := [JIA_STOP; YI_BANG; BING].

(** A file that holds a space and a newline: two blank lines. *)
Definition BLANK_FILE : str := [0x20; 0x0A].
(** The file with the three sample lines and no heading. *)
Definition PLAIN_FILE : str := JIA_STOP ++ NEWLINE ++ YI_BANG ++ NEWLINE ++ BING.
(** ["para"], a mode name outside the three modes. *)
Definition MODE_OTHER : str := [0x70; 0x61; 0x72; 0x61].

(** The headings 第一章 开始 and 第二章 继续, the lines 你好。 and 再见！. *)
Definition CHAPTER_ONE : str := [0x7B2C; 0x4E00; 0x7AE0; 0x20; 0x5F00; 0x59CB].
Definition CHAPTER_TWO : str := [0x7B2C; 0x4E8C; 0x7AE0; 0x20; 0x7EE7; 0x7EED].
Definition HELLO : str := [0x4F60; 0x597D; 0x3002].
Definition GOODBYE : str := [0x518D; 0x89C1; 0xFF01].
Definition INDENT : str := [FULLWIDTH_SPACE; FULLWIDTH_SPACE].

Example smart_sample_check :
  process_paragraphs SMART_SAMPLE MODE_SMART false
  = [P_OPEN ++ JIA_STOP ++ P_CLOSE; P_OPEN ++ YI_BANG ++ P_CLOSE;
     P_OPEN ++ BING ++ P_CLOSE].
Proof. vm_compute. reflexivity. Qed.

(** The two other examples of the specification: two chapters in blank
    mode, and a chapter with indentation in smart mode. *)
Example blank_chapters_check :
  chapters_of_lines default_chapter_pattern MODE_BLANK true
    [CHAPTER_ONE; HELLO; []; CHAPTER_TWO; INDENT ++ GOODBYE]
  = [(CHAPTER_ONE, p_tag true HELLO); (CHAPTER_TWO, p_tag true GOODBYE)].
Proof. reflexivity. Qed.

Example smart_indent_check :
  process_paragraphs [INDENT ++ [0x7532]; [0x4E59]; []; INDENT ++ BING]
    MODE_SMART true
  = [p_tag true [0x7532; 0x4E59]; p_tag true BING].
Proof. reflexivity. Qed.

(** ** Facts on strings *)

Lemma dropwhile_absorb {A} (p q : A -> bool) (s : list A) :
  (forall c, p c = true -> q c = true) ->
  dropwhile q (dropwhile p s) = dropwhile q s.
Proof.
  intros Hpq. induction s as [|c s IH]; simpl; [reflexivity|].
  destruct (p c) eqn:Ep.
  - rewrite IH, (Hpq c Ep). reflexivity.
  - reflexivity.
Qed.

Lemma dropwhile_suffix {A} (p : A -> bool) (s : list A) :
  exists t, s = t ++ dropwhile p s.
Proof.
  induction s as [|c s [t IH]]; simpl.
  - exists []. reflexivity.
  - destruct (p c).
    + exists (c :: t). simpl. f_equal. exact IH.
    + exists []. reflexivity.
Qed.

Lemma dropwhile_head {A} (p : A -> bool) (s r : list A) (c : A) :
  dropwhile p s = c :: r -> p c = false.
Proof.
  induction s as [|d s IH]; simpl; [discriminate|].
  destruct (p d) eqn:Ed; [exact IH|].
  intros H. injection H as -> _. exact Ed.
Qed.

Lemma dropwhile_keeps {A} (p : A -> bool) (s : list A) (x : A) :
  In x s -> p x = false -> dropwhile p s <> [].
Proof.
  induction s as [|d s IH]; simpl; [tauto|].
  intros [-> | Hin] Hx.
  - rewrite Hx. discriminate.
  - destruct (p d); [auto | discriminate].
Qed.

Lemma rstrip_prefix (s : str) : exists t, s = rstrip s ++ t.
Proof.
  unfold rstrip. destruct (dropwhile_suffix isspace (rev s)) as [t Ht].
  exists (rev t). rewrite <- rev_app_distr, <- Ht, rev_involutive. reflexivity.
Qed.

Lemma strip_head (s r : str) (c : char) :
  strip s = c :: r -> isspace c = false.
Proof.
  unfold strip. intros H.
  destruct (rstrip_prefix (lstrip s)) as [t Ht]. rewrite H in Ht.
  unfold lstrip in Ht. simpl in Ht.
  exact (dropwhile_head _ _ _ _ Ht).
Qed.

Lemma strip_keeps_head (c : char) (s : str) :
  isspace c = false -> exists r, strip (c :: s) = c :: r.
Proof.
  intros Hc. unfold strip, lstrip. simpl. rewrite Hc.
  destruct (rstrip_prefix (c :: s)) as [t Ht].
  destruct (rstrip (c :: s)) as [|d r] eqn:E.
  - exfalso. unfold rstrip in E.
    apply (f_equal (@rev char)) in E. rewrite rev_involutive in E. simpl in E.
    revert E. apply (dropwhile_keeps isspace _ c); [|exact Hc].
    apply in_or_app. right. left. reflexivity.
  - simpl in Ht. injection Ht as -> _. exists r. reflexivity.
Qed.

Lemma has_indent_head (c : char) (s : str) :
  has_indent (c :: s) = true -> isspace c = true.
Proof.
  unfold has_indent. simpl. rewrite andb_true_r.
  destruct (c =? FULLWIDTH_SPACE) eqn:E1.
  - apply N.eqb_eq in E1. subst c. reflexivity.
  - destruct (c =? SPACE) eqn:E2.
    + apply N.eqb_eq in E2. subst c. reflexivity.
    + destruct (c =? TAB) eqn:E3; [|simpl; intros; discriminate].
      apply N.eqb_eq in E3. subst c. reflexivity.
Qed.

Lemma nonspace_not_indented (c : char) (s : str) :
  isspace c = false -> has_indent (c :: s) = false.
Proof.
  intros Hc. destruct (has_indent (c :: s)) eqn:E; [|reflexivity].
  apply has_indent_head in E. congruence.
Qed.

Lemma nonspace_not_blank (c : char) (s : str) :
  isspace c = false -> is_blank (c :: s) = false.
Proof.
  intros Hc. unfold is_blank.
  destruct (strip_keeps_head c s Hc) as [r ->]. reflexivity.
Qed.

(** Removing the indentation first does not change the stripped text. *)
Lemma strip_remove_indent (line : str) :
  strip (remove_indent line) = strip line.
Proof.
  unfold remove_indent. destruct line as [|c s]; [reflexivity|].
  cbn [truthy negb]. unfold strip. f_equal. unfold lstrip, lstrip_chars.
  rewrite dropwhile_absorb, dropwhile_absorb; [reflexivity| |].
  - intros d Hd. unfold char_in in Hd. simpl in Hd.
    rewrite orb_false_r in Hd. apply N.eqb_eq in Hd. subst d. reflexivity.
  - intros d Hd. unfold char_in in Hd. simpl in Hd.
    rewrite orb_false_r in Hd. apply orb_true_iff in Hd.
    destruct Hd as [Hd | Hd]; apply N.eqb_eq in Hd; subst d; reflexivity.
Qed.

Lemma fragment_strip (line : str) : fragment line = strip line.
Proof.
  unfold fragment. destruct (has_indent line); [apply strip_remove_indent|reflexivity].
Qed.

Lemma blank_strip (line : str) : is_blank line = true -> strip line = [].
Proof.
  unfold is_blank. destruct (strip line); [reflexivity | discriminate].
Qed.

Lemma para_body_p_tag (add_indent : bool) (text : str) :
  para_body add_indent (p_tag add_indent text) = text.
Proof.
  unfold para_body, p_tag.
  assert (H : forall t : str,
             firstn (length (t ++ P_CLOSE) - length P_CLOSE) (t ++ P_CLOSE) = t).
  { intros t. rewrite length_app, Nat.add_sub, firstn_app, firstn_all, Nat.sub_diag.
    simpl. apply app_nil_r. }
  destruct add_indent; simpl skipn; apply H.
Qed.

(** ** The loops of the segmenter compute the groups *)

Lemma render_groups_app (add_indent : bool) (a b : list (list str)) :
  render_groups add_indent (a ++ b)
  = render_groups add_indent a ++ render_groups add_indent b.
Proof. apply map_app. Qed.

Lemma line_fold (add_indent : bool) (lines : list str) :
  forall paragraphs,
    fold_left (line_step add_indent) lines paragraphs
    = paragraphs
      ++ render_groups add_indent (map (fun t => [t]) (nonblank_texts lines)).
Proof.
  induction lines as [|l lines IH]; intros ps; simpl.
  - symmetry. apply app_nil_r.
  - rewrite IH. unfold line_step, nonblank_texts. simpl filter.
    unfold is_blank at 2. destruct (truthy (strip l)); cbn [negb]; [|reflexivity].
    assert (E : (if has_indent l
                 then ps ++ [p_tag add_indent (strip (remove_indent l))]
                 else ps ++ [p_tag add_indent (strip l)])
                = ps ++ [p_tag add_indent (strip l)]).
    { destruct (has_indent l); [rewrite strip_remove_indent|]; reflexivity. }
    rewrite E, <- app_assoc. simpl. rewrite app_nil_r. reflexivity.
Qed.

Lemma finish_flush (add_indent : bool) (paragraphs : list str) (buf : list str) :
  finish add_indent (paragraphs, buf)
  = paragraphs ++ render_groups add_indent (flush buf).
Proof.
  unfold finish, flush. destruct (truthy buf); simpl; [reflexivity|].
  symmetry. apply app_nil_r.
Qed.

Lemma blank_fold (add_indent : bool) (lines : list str) :
  forall paragraphs buf,
    finish add_indent
      (fold_left (blank_step add_indent) lines (paragraphs, buf))
    = paragraphs ++ render_groups add_indent (spec_blank_groups buf lines).
Proof.
  induction lines as [|l lines IH]; intros ps buf.
  - apply finish_flush.
  - cbn [fold_left spec_blank_groups]. unfold blank_step, is_blank, fragment.
    destruct (truthy (strip l)); destruct (has_indent l);
      destruct (truthy buf) eqn:Eb; cbn [negb andb app];
      rewrite IH; unfold flush; rewrite ?Eb; cbn [app];
      rewrite ?render_groups_app, <- ?app_assoc; try reflexivity;
      destruct buf; try discriminate; reflexivity.
Qed.

Lemma indent_fold (add_indent : bool) (lines : list str) :
  forall paragraphs buf,
    finish add_indent
      (fold_left (indent_step add_indent) lines (paragraphs, buf))
    = paragraphs ++ render_groups add_indent (spec_indent_groups buf lines).
Proof.
  induction lines as [|l lines IH]; intros ps buf.
  - apply finish_flush.
  - cbn [fold_left spec_indent_groups]. unfold indent_step, is_blank, fragment.
    destruct (truthy (strip l)); destruct (has_indent l);
      destruct (truthy buf) eqn:Eb; cbn [negb andb app];
      rewrite IH; unfold flush; rewrite ?Eb; cbn [app];
      rewrite ?render_groups_app, <- ?app_assoc; try reflexivity;
      destruct buf; try discriminate; reflexivity.
Qed.

Lemma ends_sentence_last (text : str) :
  truthy text && char_in (last text 0) PARA_END_CHARS = ends_sentence text.
Proof.
  unfold ends_sentence. destruct (rev text) as [|c r] eqn:E.
  - apply (f_equal (@rev char)) in E. rewrite rev_involutive in E.
    subst text. reflexivity.
  - apply (f_equal (@rev char)) in E. rewrite rev_involutive in E.
    subst text. simpl rev. rewrite last_last.
    destruct (rev r ++ [c]) eqn:E'; [|reflexivity].
    destruct (rev r); discriminate.
Qed.

Lemma no_blank_lines_cons (l : str) (lines : list str) :
  has_blank_lines (l :: lines) = false ->
  truthy (strip l) = true /\ has_blank_lines lines = false.
Proof.
  unfold has_blank_lines. simpl. intros H. apply orb_false_iff in H.
  destruct H as [H1 H2]. split; [|exact H2].
  destruct (truthy (strip l)); [reflexivity | discriminate].
Qed.

Lemma punct_fold (add_indent : bool) (lines : list str) :
  has_blank_lines lines = false ->
  forall paragraphs buf,
    finish add_indent
      (fold_left (punct_step add_indent) lines (paragraphs, buf))
    = paragraphs ++ render_groups add_indent (spec_punct_groups buf lines).
Proof.
  induction lines as [|l lines IH]; intros Hnb ps buf.
  - apply finish_flush.
  - apply no_blank_lines_cons in Hnb. destruct Hnb as [Hl Hnb].
    cbn [fold_left spec_punct_groups]. unfold punct_step.
    cbv zeta. rewrite ends_sentence_last, Hl. cbn [negb].
    destruct (ends_sentence (strip l)); rewrite (IH Hnb).
    + cbn [render_groups map]. rewrite <- app_assoc. reflexivity.
    + reflexivity.
Qed.

(** *** What the groups hold *)

Lemma flush_concat (buf : list str) : concat (flush buf) = buf.
Proof.
  unfold flush. destruct buf; simpl; [reflexivity|].
  rewrite app_nil_r. reflexivity.
Qed.

Lemma flush_nonempty (buf : list str) : Forall (fun g => g <> []) (flush buf).
Proof.
  unfold flush. destruct buf; simpl; constructor; [discriminate | constructor].
Qed.

Lemma spec_indent_is_blank (lines : list str) :
  forall buf, spec_indent_groups buf lines = spec_blank_groups buf lines.
Proof.
  induction lines as [|l lines IH]; intros buf; simpl; [reflexivity|].
  destruct (is_blank l); [rewrite IH; reflexivity|].
  destruct (has_indent l); cbn [andb]; [|apply IH].
  unfold flush. destruct buf; cbn [truthy app]; rewrite IH; reflexivity.
Qed.

Lemma spec_blank_concat (lines : list str) :
  forall buf, concat (spec_blank_groups buf lines) = buf ++ nonblank_texts lines.
Proof.
  unfold nonblank_texts.
  induction lines as [|l lines IH]; intros buf; simpl.
  - rewrite flush_concat, app_nil_r. reflexivity.
  - destruct (is_blank l); cbn [negb].
    + rewrite concat_app, flush_concat, IH. reflexivity.
    + rewrite fragment_strip. destruct (has_indent l && truthy buf).
      * simpl. rewrite IH. reflexivity.
      * rewrite IH, <- app_assoc. reflexivity.
Qed.

Lemma spec_blank_nonempty (lines : list str) :
  forall buf, Forall (fun g => g <> []) (spec_blank_groups buf lines).
Proof.
  induction lines as [|l lines IH]; intros buf; simpl.
  - apply flush_nonempty.
  - destruct (is_blank l).
    + apply Forall_app. split; [apply flush_nonempty | apply IH].
    + destruct (has_indent l && truthy buf) eqn:E; [|apply IH].
      constructor; [|apply IH].
      apply andb_true_iff in E. destruct E as [_ E].
      destruct buf; discriminate.
Qed.

Lemma spec_punct_concat (lines : list str) :
  forall buf, concat (spec_punct_groups buf lines) = buf ++ map strip lines.
Proof.
  induction lines as [|l lines IH]; intros buf; simpl.
  - rewrite flush_concat, app_nil_r. reflexivity.
  - destruct (ends_sentence (strip l)); simpl; rewrite IH, <- ?app_assoc;
      reflexivity.
Qed.

Lemma spec_punct_nonempty (lines : list str) :
  forall buf, Forall (fun g => g <> []) (spec_punct_groups buf lines).
Proof.
  induction lines as [|l lines IH]; intros buf; simpl.
  - apply flush_nonempty.
  - destruct (ends_sentence (strip l)); [|apply IH].
    constructor; [|apply IH]. destruct buf; discriminate.
Qed.

Lemma no_blank_texts (lines : list str) :
  has_blank_lines lines = false -> nonblank_texts lines = map strip lines.
Proof.
  unfold nonblank_texts. induction lines as [|l lines IH]; intros H;
    [reflexivity|].
  apply no_blank_lines_cons in H. destruct H as [Hl H].
  simpl. unfold is_blank at 1. rewrite Hl. simpl. rewrite (IH H). reflexivity.
Qed.

(** *** The three modes *)

Lemma process_paragraphs_groups (m : seg_mode) (lines : list str)
    (add_indent : bool) :
  process_paragraphs lines (mode_name m) add_indent
  = render_groups add_indent (mode_groups m lines).
Proof.
  destruct m; unfold process_paragraphs; cbn [mode_name mode_groups].
  - change (str_eqb MODE_LINE MODE_LINE) with true. cbv iota.
    unfold process_line. apply (line_fold add_indent lines []).
  - change (str_eqb MODE_BLANK MODE_LINE) with false.
    change (str_eqb MODE_BLANK MODE_BLANK) with true. cbv iota.
    unfold process_blank. apply (blank_fold add_indent lines [] []).
  - change (str_eqb MODE_SMART MODE_LINE) with false.
    change (str_eqb MODE_SMART MODE_BLANK) with false.
    change (str_eqb MODE_SMART MODE_SMART) with true. cbv iota.
    unfold smart_branch.
    destruct (has_indented_lines lines);
      [apply (indent_fold add_indent lines [] [])|].
    destruct (has_blank_lines lines) eqn:Hb.
    + apply (blank_fold add_indent lines [] []).
    + apply (punct_fold add_indent lines Hb [] []).
Qed.

Lemma mode_groups_concat (m : seg_mode) (lines : list str) :
  concat (mode_groups m lines) = nonblank_texts lines.
Proof.
  destruct m; cbn [mode_groups].
  - induction (nonblank_texts lines) as [|t ts IH]; simpl; [reflexivity|].
    rewrite IH. reflexivity.
  - apply (spec_blank_concat lines []).
  - unfold smart_branch. destruct (has_indented_lines lines).
    + rewrite spec_indent_is_blank. apply (spec_blank_concat lines []).
    + destruct (has_blank_lines lines) eqn:Hb.
      * apply (spec_blank_concat lines []).
      * rewrite (spec_punct_concat lines []), (no_blank_texts lines Hb).
        reflexivity.
Qed.

Lemma mode_groups_nonempty (m : seg_mode) (lines : list str) :
  Forall (fun g => g <> []) (mode_groups m lines).
Proof.
  destruct m; cbn [mode_groups].
  - apply Forall_map. apply Forall_forall. intros; discriminate.
  - apply spec_blank_nonempty.
  - unfold smart_branch. destruct (has_indented_lines lines).
    + rewrite spec_indent_is_blank. apply spec_blank_nonempty.
    + destruct (has_blank_lines lines);
        [apply spec_blank_nonempty | apply spec_punct_nonempty].
Qed.

Lemma process_paragraphs_nil (mode : str) (add_indent : bool) :
  process_paragraphs [] mode add_indent = [].
Proof.
  unfold process_paragraphs.
  destruct (str_eqb mode MODE_LINE); [reflexivity|].
  destruct (str_eqb mode MODE_BLANK); [reflexivity|].
  destruct (str_eqb mode MODE_SMART); reflexivity.
Qed.

Lemma str_eqb_neq (a b : str) : a <> b -> str_eqb a b = false.
Proof.
  intros H. unfold str_eqb. destruct (list_eq_dec N.eq_dec a b); [contradiction|].
  reflexivity.
Qed.

Lemma process_paragraphs_unknown (mode : str) (lines : list str)
    (add_indent : bool) :
  mode <> MODE_LINE -> mode <> MODE_BLANK -> mode <> MODE_SMART ->
  process_paragraphs lines mode add_indent = [].
Proof.
  intros H1 H2 H3. unfold process_paragraphs.
  rewrite (str_eqb_neq _ _ H1), (str_eqb_neq _ _ H2), (str_eqb_neq _ _ H3).
  reflexivity.
Qed.

(** *** Texts that start with a character that is no white space *)

Lemma nonblank_texts_solid (lines : list str) :
  Forall (fun t => starts_solid t = true) (nonblank_texts lines).
Proof.
  unfold nonblank_texts. apply Forall_map. apply Forall_forall.
  intros l Hl. apply filter_In in Hl. destruct Hl as [_ Hl].
  unfold is_blank in Hl. destruct (strip l) as [|c r] eqn:E; [discriminate|].
  simpl. rewrite (strip_head l r c E). reflexivity.
Qed.

Lemma concat_solid (g : list str) :
  g <> [] -> Forall (fun t => starts_solid t = true) g ->
  starts_solid (concat g) = true.
Proof.
  destruct g as [|t g]; [congruence|]. intros _ H.
  apply Forall_inv in H. destruct t; [discriminate|]. exact H.
Qed.

Lemma groups_solid (groups : list (list str)) (texts : list str) :
  concat groups = texts ->
  Forall (fun t => starts_solid t = true) texts ->
  Forall (fun g => g <> []) groups ->
  Forall (fun g => starts_solid (concat g) = true) groups.
Proof.
  intros Hc Ht Hne. subst texts. induction groups as [|g gs IH];
    [constructor|].
  simpl in Ht. apply Forall_app in Ht. destruct Ht as [Hg Hgs].
  constructor.
  - apply concat_solid; [exact (Forall_inv Hne) | exact Hg].
  - apply IH; [exact Hgs | exact (Forall_inv_tail Hne)].
Qed.

Lemma mode_groups_solid (m : seg_mode) (lines : list str) :
  Forall (fun g => starts_solid (concat g) = true) (mode_groups m lines).
Proof.
  apply (groups_solid _ (nonblank_texts lines)).
  - apply mode_groups_concat.
  - apply nonblank_texts_solid.
  - apply mode_groups_nonempty.
Qed.

Lemma solid_nonempty (text : str) : starts_solid text = true -> text <> [].
Proof. destruct text; [discriminate | discriminate]. Qed.

Lemma solid_not_indented (text : str) :
  starts_solid text = true -> has_indent text = false.
Proof.
  destruct text as [|c r]; [discriminate|]. simpl. intros H.
  apply nonspace_not_indented. destruct (isspace c); [discriminate|reflexivity].
Qed.

Lemma solid_not_blank (text : str) :
  starts_solid text = true -> is_blank text = false.
Proof.
  destruct text as [|c r]; [discriminate|]. simpl. intros H.
  apply nonspace_not_blank. destruct (isspace c); [discriminate|reflexivity].
Qed.

Lemma solid_lines_punctuation (lines : list str) :
  Forall (fun t => starts_solid t = true) lines ->
  has_indented_lines lines = false /\ has_blank_lines lines = false.
Proof.
  unfold has_indented_lines, has_blank_lines.
  induction 1 as [|l lines Hl _ [IH1 IH2]]; [split; reflexivity|].
  pose proof (solid_not_blank l Hl) as Hb. unfold is_blank in Hb.
  simpl. destruct (truthy (strip l)); [|discriminate]. simpl.
  rewrite (solid_not_indented l Hl), IH1, IH2. split; reflexivity.
Qed.

Lemma p_tag_solid (add_indent : bool) (text : str) :
  starts_solid (p_tag add_indent text) = true.
Proof. reflexivity. Qed.

(** ** The chapter loop computes the segments *)

Section ChapterFacts.

Variable chapter_regex : str -> bool.
Variable paragraph_mode : str.
Variable force_indent : bool.

Abbreviation kept := (kept_chapters paragraph_mode force_indent).
Abbreviation close_paras := (close_chapter_paras paragraph_mode force_indent).
Abbreviation close := (close_chapter paragraph_mode force_indent).

Lemma kept_cons (seg : str * list str) (segs : list (str * list str)) :
  kept (seg :: segs) = kept [seg] ++ kept segs.
Proof.
  unfold kept_chapters. simpl.
  destruct (truthy (process_paragraphs (snd seg) paragraph_mode force_indent));
    reflexivity.
Qed.

Lemma close_paras_kept (chapters : list (str * list str)) (title : str)
    (chapter_lines : list str) :
  close_paras chapters title chapter_lines
  = chapters ++ kept [(title, chapter_lines)].
Proof.
  unfold close_chapter_paras, kept_chapters, segment_result. simpl.
  destruct chapter_lines as [|l ls].
  - rewrite process_paragraphs_nil. simpl. symmetry. apply app_nil_r.
  - cbn [truthy].
    destruct (truthy (process_paragraphs (l :: ls) paragraph_mode force_indent));
      [reflexivity | symmetry; apply app_nil_r].
Qed.

Lemma close_joined (chapters : list (str * list str)) (title : str)
    (chapter_lines : list str) :
  close (map joined chapters) title chapter_lines
  = map joined (close_paras chapters title chapter_lines).
Proof.
  unfold close_chapter, close_chapter_paras.
  destruct (truthy chapter_lines); [|reflexivity].
  cbv zeta.
  destruct (truthy (process_paragraphs chapter_lines paragraph_mode force_indent));
    [|reflexivity].
  rewrite map_app. reflexivity.
Qed.

Lemma paras_fold (lines : list str) :
  forall chapters title chapter_lines,
    (let '(a, b, c) :=
       fold_left (chapter_paras_step chapter_regex paragraph_mode force_indent)
                 lines (chapters, title, chapter_lines) in
     close_paras a b c)
    = chapters
      ++ kept ((title, chapter_lines ++ fst (split_at_headings chapter_regex lines))
               :: snd (split_at_headings chapter_regex lines)).
Proof.
  induction lines as [|l lines IH]; intros chs t cl.
  - simpl. rewrite app_nil_r. apply close_paras_kept.
  - cbn [fold_left split_at_headings]. unfold chapter_paras_step at 2.
    unfold is_blank.
    destruct (split_at_headings chapter_regex lines) as [cur others] eqn:Es.
    cbn [fst snd] in IH.
    destruct (truthy (strip l)); cbn [negb].
    + destruct (chapter_regex (strip l)); rewrite IH; cbn [fst snd].
      * rewrite close_paras_kept, <- app_assoc, (app_nil_r cl). cbn [app].
        f_equal. symmetry. apply kept_cons.
      * rewrite <- app_assoc. reflexivity.
    + rewrite IH. cbn [fst snd]. rewrite <- app_assoc. reflexivity.
Qed.

Lemma chapter_paras_segments (lines : list str) :
  chapter_paras_of_lines chapter_regex paragraph_mode force_indent lines
  = kept (segments chapter_regex lines).
Proof.
  unfold chapter_paras_of_lines, segments.
  rewrite (paras_fold lines [] PREFACE []).
  destruct (split_at_headings chapter_regex lines). reflexivity.
Qed.

Lemma joined_fold (lines : list str) :
  forall chapters title chapter_lines,
    (let '(a, b, c) :=
       fold_left (chapter_step chapter_regex paragraph_mode force_indent)
                 lines (map joined chapters, title, chapter_lines) in
     close a b c)
    = map joined
        (let '(a, b, c) :=
           fold_left
             (chapter_paras_step chapter_regex paragraph_mode force_indent)
             lines (chapters, title, chapter_lines) in
         close_paras a b c).
Proof.
  induction lines as [|l lines IH]; intros chs t cl.
  - simpl. apply close_joined.
  - cbn [fold_left]. unfold chapter_step at 2, chapter_paras_step at 2.
    destruct (negb (truthy (strip l))); [apply IH|].
    destruct (chapter_regex (strip l)); [|apply IH].
    rewrite close_joined. apply IH.
Qed.

Lemma chapters_joined (lines : list str) :
  chapters_of_lines chapter_regex paragraph_mode force_indent lines
  = map joined
      (chapter_paras_of_lines chapter_regex paragraph_mode force_indent lines).
Proof. apply (joined_fold lines [] PREFACE []). Qed.

(** *** The segments and the line sequence *)

Lemma split_rejoin (lines : list str) :
  fst (split_at_headings chapter_regex lines)
  ++ rejoin (snd (split_at_headings chapter_regex lines))
  = map (seen_as chapter_regex) lines.
Proof.
  induction lines as [|l lines IH]; [reflexivity|].
  cbn [split_at_headings map]. unfold seen_as at 1.
  destruct (split_at_headings chapter_regex lines) as [cur others].
  cbn [fst snd] in IH. rewrite <- IH.
  destruct (is_blank l); [reflexivity|].
  destruct (chapter_regex (strip l)); reflexivity.
Qed.

Lemma segments_rejoin (lines : list str) :
  rejoin (segments chapter_regex lines)
  = PREFACE :: map (seen_as chapter_regex) lines.
Proof.
  unfold segments. rewrite <- split_rejoin.
  destruct (split_at_headings chapter_regex lines). reflexivity.
Qed.

Lemma split_no_heading (lines : list str) :
  Forall (fun l => is_heading chapter_regex l = false)
         (fst (split_at_headings chapter_regex lines))
  /\ Forall (fun seg =>
               Forall (fun l => is_heading chapter_regex l = false) (snd seg))
            (snd (split_at_headings chapter_regex lines)).
Proof.
  induction lines as [|l lines [IH1 IH2]]; [split; constructor|].
  cbn [split_at_headings].
  destruct (split_at_headings chapter_regex lines) as [cur others].
  cbn [fst snd] in *.
  destruct (is_blank l) eqn:Eb.
  - split; [constructor; [reflexivity | exact IH1] | exact IH2].
  - destruct (chapter_regex (strip l)) eqn:Er; cbn [fst snd].
    + split; [constructor | constructor; [exact IH1 | exact IH2]].
    + split; [|exact IH2]. constructor; [|exact IH1].
      unfold is_heading. rewrite Eb, Er. reflexivity.
Qed.

Lemma split_titles (lines : list str) :
  Forall (fun seg =>
            exists l, In l lines /\ is_heading chapter_regex l = true
                      /\ fst seg = strip l)
         (snd (split_at_headings chapter_regex lines)).
Proof.
  induction lines as [|l lines IH]; [constructor|].
  cbn [split_at_headings].
  destruct (split_at_headings chapter_regex lines) as [cur others].
  cbn [fst snd] in *.
  assert (IH' : Forall (fun seg =>
            exists l0, In l0 (l :: lines) /\ is_heading chapter_regex l0 = true
                       /\ fst seg = strip l0) others).
  { eapply Forall_impl; [|exact IH]. intros seg [l0 [Hin H]].
    exists l0. split; [right; exact Hin | exact H]. }
  destruct (is_blank l) eqn:Eb; [exact IH'|].
  destruct (chapter_regex (strip l)) eqn:Er; [|exact IH'].
  constructor; [|exact IH'].
  exists l. split; [left; reflexivity|]. split; [|reflexivity].
  unfold is_heading. rewrite Eb, Er. reflexivity.
Qed.

(** The stripped content lines are the non-blank texts of the segments. *)
Lemma split_content (lines : list str) :
  nonblank_texts (fst (split_at_headings chapter_regex lines))
  ++ concat (map (fun seg => nonblank_texts (snd seg))
                 (snd (split_at_headings chapter_regex lines)))
  = map strip (filter (is_content chapter_regex) lines).
Proof.
  induction lines as [|l lines IH]; [reflexivity|].
  cbn [split_at_headings filter]. unfold is_content at 1.
  destruct (split_at_headings chapter_regex lines) as [cur others].
  cbn [fst snd] in *.
  destruct (is_blank l) eqn:Eb; cbn [negb andb fst snd].
  - exact IH.
  - destruct (chapter_regex (strip l)); cbn [negb fst snd map concat].
    + exact IH.
    + unfold nonblank_texts at 1. cbn [filter]. rewrite Eb. cbn [negb map].
      rewrite <- IH. reflexivity.
Qed.

End ChapterFacts.

(** ** Paragraph texts of whole chapters *)

Lemma bodies_render (add_indent : bool) (groups : list (list str)) :
  map (para_body add_indent) (render_groups add_indent groups)
  = map (@concat char) groups.
Proof.
  unfold render_groups. rewrite map_map. apply map_ext.
  intros g. apply para_body_p_tag.
Qed.

Lemma render_well_formed (add_indent : bool) (groups : list (list str)) :
  Forall (fun p => p = p_tag add_indent (para_body add_indent p))
         (render_groups add_indent groups).
Proof.
  unfold render_groups. apply Forall_map. apply Forall_forall.
  intros g _. rewrite para_body_p_tag. reflexivity.
Qed.

Lemma concat_map_concat {A} (xss : list (list (list A))) :
  concat (map (@concat A) xss) = concat (concat xss).
Proof.
  induction xss as [|xs xss IH]; simpl; [reflexivity|].
  rewrite concat_app, IH. reflexivity.
Qed.

Lemma kept_paragraphs (mode : str) (add_indent : bool)
    (segs : list (str * list str)) :
  concat (map snd (kept_chapters mode add_indent segs))
  = concat (map (fun seg => process_paragraphs (snd seg) mode add_indent) segs).
Proof.
  unfold kept_chapters, segment_result.
  induction segs as [|seg segs IH]; simpl; [reflexivity|].
  destruct (process_paragraphs (snd seg) mode add_indent) eqn:E; simpl.
  - exact IH.
  - rewrite IH. reflexivity.
Qed.

Lemma kept_have_paragraphs (mode : str) (add_indent : bool)
    (segs : list (str * list str)) :
  Forall (fun c => snd c <> []) (kept_chapters mode add_indent segs).
Proof.
  unfold kept_chapters. apply Forall_forall. intros c Hc.
  apply filter_In in Hc. destruct Hc as [_ Hc].
  destruct (snd c); [discriminate | discriminate].
Qed.

Lemma paragraphs_text (m : seg_mode) (add_indent : bool) (lines : list str) :
  concat (map (para_body add_indent)
              (process_paragraphs lines (mode_name m) add_indent))
  = concat (nonblank_texts lines).
Proof.
  rewrite process_paragraphs_groups, bodies_render, concat_map_concat,
    mode_groups_concat.
  reflexivity.
Qed.

Lemma segments_text (m : seg_mode) (add_indent : bool)
    (segs : list (str * list str)) :
  concat (map (para_body add_indent)
              (concat (map (fun seg =>
                 process_paragraphs (snd seg) (mode_name m) add_indent) segs)))
  = concat (concat (map (fun seg => nonblank_texts (snd seg)) segs)).
Proof.
  induction segs as [|seg segs IH]; simpl; [reflexivity|].
  rewrite map_app, !concat_app, IH, paragraphs_text. reflexivity.
Qed.

(** A chapter has paragraphs exactly when one of its lines is not blank. *)
Lemma has_paragraphs (m : seg_mode) (add_indent : bool) (lines : list str) :
  truthy (process_paragraphs lines (mode_name m) add_indent)
  = existsb (fun l => negb (is_blank l)) lines.
Proof.
  rewrite process_paragraphs_groups.
  assert (Hx : truthy (nonblank_texts lines)
               = existsb (fun l => negb (is_blank l)) lines).
  { unfold nonblank_texts. induction lines as [|l lines IH]; [reflexivity|].
    simpl. destruct (negb (is_blank l)); [reflexivity | exact IH]. }
  pose proof (mode_groups_concat m lines) as Hc.
  pose proof (mode_groups_nonempty m lines) as Hne.
  rewrite <- Hx, <- Hc.
  destruct (mode_groups m lines) as [|g gs]; [reflexivity|].
  apply Forall_inv in Hne. destruct g; [congruence | reflexivity].
Qed.

Lemma smart_branch_cases (lines : list str) :
  smart_branch lines
  = if existsb (fun l => negb (is_blank l) && has_indent l) lines then ByIndent
    else if existsb is_blank lines then ByBlank
    else ByPunctuation.
Proof.
  unfold smart_branch.
  assert (H1 : has_indented_lines lines
               = existsb (fun l => negb (is_blank l) && has_indent l) lines).
  { unfold has_indented_lines, is_blank.
    induction lines as [|l lines IH]; [reflexivity|].
    simpl. destruct (truthy (strip l)); simpl; rewrite IH; reflexivity. }
  rewrite H1. reflexivity.
Qed.

Lemma blank_groups_length (lines : list str) :
  forall buf,
    length (spec_blank_groups buf lines)
    = ((if truthy buf then 1 else 0)
       + count_runs (truthy buf) lines
       + count_midrun_indented (truthy buf) lines)%nat.
Proof.
  induction lines as [|l lines IH]; intros buf; simpl.
  - unfold flush. destruct (truthy buf); simpl; reflexivity.
  - destruct (is_blank l).
    + rewrite length_app, IH. unfold flush.
      destruct (truthy buf); simpl; lia.
    + destruct (has_indent l); destruct buf as [|b buf]; cbn [andb truthy];
        simpl length; rewrite IH; cbn [truthy app]; lia.
Qed.

Lemma no_headings_split (chapter_regex : str -> bool) (lines : list str) :
  (forall l, In l lines -> is_heading chapter_regex l = false) ->
  split_at_headings chapter_regex lines
  = (map (seen_as chapter_regex) lines, []).
Proof.
  induction lines as [|l lines IH]; intros H; [reflexivity|].
  cbn [split_at_headings map]. rewrite IH by (intros; apply H; right; assumption).
  pose proof (H l (or_introl eq_refl)) as Hl. unfold is_heading in Hl.
  unfold seen_as. destruct (is_blank l); [reflexivity|].
  cbn [negb andb] in Hl. rewrite Hl. reflexivity.
Qed.

Lemma seen_as_nonblank (chapter_regex : str -> bool) (lines : list str) :
  (forall l, In l lines -> is_heading chapter_regex l = false) ->
  existsb (fun l => negb (is_blank l)) (map (seen_as chapter_regex) lines)
  = existsb (fun l => negb (is_blank l)) lines.
Proof.
  induction lines as [|l lines IH]; intros H; [reflexivity|].
  simpl. rewrite IH by (intros; apply H; right; assumption). f_equal.
  pose proof (H l (or_introl eq_refl)) as Hl. unfold is_heading in Hl.
  unfold seen_as. destruct (is_blank l) eqn:Eb; [reflexivity|].
  cbn [negb andb] in Hl. rewrite Hl, Eb. reflexivity.
Qed.

(** ** Properties of the specification *)

(** C1. For every input text, heading pattern, segmentation mode and
    force-indent setting, the chapter list is the list of chapters with
    their paragraphs joined; every paragraph is a text inside a paragraph
    tag (after the optional indent marker); and the paragraph texts of all
    chapters, concatenated in order, are exactly the stripped texts of the
    content lines (the non-blank lines that are no headings) of the input,
    concatenated in order: no text is gained or lost. *)
Theorem text_preserved (chapter_regex : str -> bool) (m : seg_mode)
    (force_indent : bool) (content : str) :
  txt_to_epub chapter_regex (mode_name m) force_indent content
  = map joined
      (txt_to_epub_paragraphs chapter_regex (mode_name m) force_indent content)
  /\ Forall (fun p => p = p_tag force_indent (para_body force_indent p))
       (concat (map snd (txt_to_epub_paragraphs chapter_regex (mode_name m)
                           force_indent content)))
  /\ concat (map (para_body force_indent)
       (concat (map snd (txt_to_epub_paragraphs chapter_regex (mode_name m)
                           force_indent content))))
     = concat (map strip
         (filter (is_content chapter_regex) (split_newline content))).
Proof.
  unfold txt_to_epub, txt_to_epub_paragraphs.
  split; [apply chapters_joined|].
  rewrite chapter_paras_segments, kept_paragraphs. split.
  - apply Forall_concat. apply Forall_map. apply Forall_forall. intros seg _.
    rewrite process_paragraphs_groups. apply render_well_formed.
  - rewrite segments_text, <- split_content. unfold segments.
    destruct (split_at_headings chapter_regex (split_newline content)).
    reflexivity.
Qed.

(** C2. Smart mode decides its strategy once per chapter, in priority
    order: the indentation branch if some non-blank line is indented, else
    the blank-line branch if some line is blank, else the punctuation
    branch.  In the indentation branch an indented line flushes the buffer
    and starts a new one with its indentation stripped and a blank line only
    flushes ([spec_indent_groups]); in the blank-line branch the output is
    the blank-mode output on the same lines.  The buffering of the
    indentation branch gives the blank-mode output as well. *)
Theorem smart_priority (lines : list str) (add_indent : bool) :
  smart_branch lines
  = (if existsb (fun l => negb (is_blank l) && has_indent l) lines
     then ByIndent
     else if existsb is_blank lines then ByBlank else ByPunctuation)
  /\ process_paragraphs lines MODE_SMART add_indent
     = match smart_branch lines with
       | ByIndent => render_groups add_indent (spec_indent_groups [] lines)
       | ByBlank => process_paragraphs lines MODE_BLANK add_indent
       | ByPunctuation => render_groups add_indent (spec_punct_groups [] lines)
       end
  /\ render_groups add_indent (spec_indent_groups [] lines)
     = process_paragraphs lines MODE_BLANK add_indent.
Proof.
  split; [apply smart_branch_cases|]. split.
  - rewrite (process_paragraphs_groups Smart). cbn [mode_groups].
    destruct (smart_branch lines); try reflexivity.
    symmetry. apply (process_paragraphs_groups Blank).
  - rewrite spec_indent_is_blank. symmetry.
    apply (process_paragraphs_groups Blank).
Qed.

(** C3. Blank mode accumulates lines in a buffer that is flushed as one
    paragraph (the fragments concatenated with no separator) at each blank
    line, flushed and restarted with the indentation stripped at each
    indented line met while the buffer is not empty, and flushed at the end
    of input ([spec_blank_groups]); the number of paragraphs is the number
    of maximal runs of non-blank lines plus the number of indented lines
    that come in a run after its first line. *)
Theorem blank_mode_paragraphs (lines : list str) (add_indent : bool) :
  process_paragraphs lines MODE_BLANK add_indent
  = render_groups add_indent (spec_blank_groups [] lines)
  /\ length (process_paragraphs lines MODE_BLANK add_indent)
     = (count_runs false lines + count_midrun_indented false lines)%nat.
Proof.
  pose proof (process_paragraphs_groups Blank lines add_indent) as H.
  cbn [mode_name mode_groups] in H. split; [exact H|].
  rewrite H. unfold render_groups. rewrite length_map.
  apply (blank_groups_length lines []).
Qed.

(** C4. On a chapter with no indented non-blank line and no blank line,
    smart mode appends the trimmed lines to a buffer and flushes the buffer
    as a paragraph right after a line whose last character is one of the
    sentence terminators; a trailing buffer is flushed at the end. *)
Theorem punctuation_fallback (lines : list str) (add_indent : bool) :
  has_indented_lines lines = false ->
  has_blank_lines lines = false ->
  process_paragraphs lines MODE_SMART add_indent
  = render_groups add_indent (spec_punct_groups [] lines).
Proof.
  intros Hi Hb. rewrite (process_paragraphs_groups Smart).
  cbn [mode_groups]. unfold smart_branch. rewrite Hi, Hb. reflexivity.
Qed.

Lemma punctuation_fallback_witness :
  has_indented_lines SMART_SAMPLE = false
  /\ has_blank_lines SMART_SAMPLE = false
  /\ process_paragraphs SMART_SAMPLE MODE_SMART true
     = render_groups true (spec_punct_groups [] SMART_SAMPLE).
Proof.
  split; [reflexivity|]. split; [reflexivity|].
  apply (punctuation_fallback SMART_SAMPLE true); reflexivity.
Defined.

(** C5, as the specification states it, fails: the sample lines do not give
    the two paragraphs 甲。 and 乙！丙, with or without the indent marker. *)
Lemma smart_sample_not_two_paragraphs :
  map (para_body false) (process_paragraphs SMART_SAMPLE MODE_SMART false)
  <> [JIA_STOP; YI_BANG ++ BING]
  /\ map (para_body true) (process_paragraphs SMART_SAMPLE MODE_SMART true)
     <> [JIA_STOP; YI_BANG ++ BING].
Proof. split; vm_compute; discriminate. Qed.

(** C5, amended. The sample lines take the punctuation branch and give
    three paragraphs, 甲。, 乙！ and 丙: the second line ends with a
    terminator and is flushed on its own; the last line, without terminator,
    is the trailing buffer flushed at the end. *)
Theorem smart_sample_three_paragraphs (add_indent : bool) :
  smart_branch SMART_SAMPLE = ByPunctuation
  /\ process_paragraphs SMART_SAMPLE MODE_SMART add_indent
     = [p_tag add_indent JIA_STOP; p_tag add_indent YI_BANG;
        p_tag add_indent BING]
  /\ map (para_body add_indent)
         (process_paragraphs SMART_SAMPLE MODE_SMART add_indent)
     = [JIA_STOP; YI_BANG; BING].
Proof. destruct add_indent; repeat split; reflexivity. Qed.

(** C6. Smart mode run again on the paragraphs that smart mode produced
    takes the punctuation branch: no produced paragraph is blank and none is
    classified as indented.  This holds for the paragraph strings as they
    are produced and for their texts. *)
Theorem smart_resegmentation_punctuation (lines : list str)
    (add_indent : bool) :
  smart_branch (process_paragraphs lines MODE_SMART add_indent) = ByPunctuation
  /\ has_indented_lines (process_paragraphs lines MODE_SMART add_indent) = false
  /\ has_blank_lines (process_paragraphs lines MODE_SMART add_indent) = false
  /\ smart_branch (map (para_body add_indent)
                       (process_paragraphs lines MODE_SMART add_indent))
     = ByPunctuation.
Proof.
  rewrite (process_paragraphs_groups Smart).
  assert (H1 : Forall (fun t => starts_solid t = true)
                 (render_groups add_indent (mode_groups Smart lines))).
  { unfold render_groups. apply Forall_map. apply Forall_forall.
    intros g _. apply p_tag_solid. }
  assert (H2 : Forall (fun t => starts_solid t = true)
                 (map (para_body add_indent)
                      (render_groups add_indent (mode_groups Smart lines)))).
  { rewrite bodies_render. apply Forall_map. apply mode_groups_solid. }
  apply solid_lines_punctuation in H1, H2.
  destruct H1 as [H1i H1b]. destruct H2 as [H2i H2b].
  unfold smart_branch. rewrite H1i, H1b, H2i, H2b. repeat split.
Qed.

Lemma segments_heading_split (chapter_regex : str -> bool) (lines : list str) :
  heading_split chapter_regex lines (segments chapter_regex lines).
Proof.
  unfold heading_split. split; [apply segments_rejoin|].
  pose proof (split_no_heading chapter_regex lines) as [Hf Ho].
  pose proof (split_titles chapter_regex lines) as Ht.
  unfold segments.
  destruct (split_at_headings chapter_regex lines) as [first others].
  cbn [fst snd] in *. split.
  - constructor; [exact Hf | exact Ho].
  - exists first, others. split; [reflexivity | exact Ht].
Qed.

Lemma paragraphs_ordered (m : seg_mode) (add_indent : bool)
    (lines : list str) :
  ordered_paragraphs add_indent lines
    (process_paragraphs lines (mode_name m) add_indent).
Proof.
  exists (mode_groups m lines). split; [apply process_paragraphs_groups|].
  split; [apply mode_groups_concat | apply mode_groups_nonempty].
Qed.

Lemma paragraphs_not_empty (m : seg_mode) (add_indent : bool)
    (lines : list str) :
  Forall (fun p => para_body add_indent p <> [])
         (process_paragraphs lines (mode_name m) add_indent).
Proof.
  rewrite process_paragraphs_groups. unfold render_groups.
  apply Forall_map.
  eapply Forall_impl; [|apply (mode_groups_solid m lines)].
  intros g Hg. rewrite para_body_p_tag. apply solid_nonempty. exact Hg.
Qed.

(** C7. For every input, heading pattern, mode and force-indent setting:
    the output chapters are, in source order, the segments that the
    headings cut out of the line sequence and that have paragraphs; the
    first segment is titled by the preface label and every other one by the
    stripped text of its heading line; no line handed to the segmenter is a
    heading; the paragraphs of a chapter are renderings of consecutive
    groups of its stripped non-blank lines, in line order; and no paragraph
    has an empty text. *)
Theorem chapter_invariants (chapter_regex : str -> bool) (m : seg_mode)
    (force_indent : bool) (content : str) :
  txt_to_epub chapter_regex (mode_name m) force_indent content
  = map joined
      (txt_to_epub_paragraphs chapter_regex (mode_name m) force_indent content)
  /\ txt_to_epub_paragraphs chapter_regex (mode_name m) force_indent content
     = kept_chapters (mode_name m) force_indent
         (segments chapter_regex (split_newline content))
  /\ heading_split chapter_regex (split_newline content)
       (segments chapter_regex (split_newline content))
  /\ Forall (fun seg =>
       ordered_paragraphs force_indent (snd seg)
         (snd (segment_result (mode_name m) force_indent seg))
       /\ Forall (fun p => para_body force_indent p <> [])
            (snd (segment_result (mode_name m) force_indent seg)))
       (segments chapter_regex (split_newline content)).
Proof.
  unfold txt_to_epub, txt_to_epub_paragraphs.
  split; [apply chapters_joined|].
  split; [apply chapter_paras_segments|].
  split; [apply segments_heading_split|].
  apply Forall_forall. intros seg _. unfold segment_result. cbn [snd].
  split; [apply paragraphs_ordered | apply paragraphs_not_empty].
Qed.

(** C8. For every input (and every mode string), the output chapters are
    exactly the segments whose segmentation gives at least one paragraph,
    in order: a segment with an empty line buffer gives no paragraph, and a
    segment without paragraphs is left out.  Every output chapter has a
    paragraph.  The functions are total: nothing is raised. *)
Theorem empty_chapters_dropped (chapter_regex : str -> bool) (mode : str)
    (force_indent : bool) (content : str) :
  txt_to_epub chapter_regex mode force_indent content
  = map joined
      (filter (fun c => truthy (snd c))
         (map (segment_result mode force_indent)
              (segments chapter_regex (split_newline content))))
  /\ Forall (fun c => snd c <> [])
       (txt_to_epub_paragraphs chapter_regex mode force_indent content)
  /\ length (txt_to_epub chapter_regex mode force_indent content)
     = length (filter (fun seg =>
                  truthy (process_paragraphs (snd seg) mode force_indent))
               (segments chapter_regex (split_newline content)))
  /\ process_paragraphs [] mode force_indent = [].
Proof.
  unfold txt_to_epub, txt_to_epub_paragraphs.
  rewrite chapters_joined, chapter_paras_segments.
  split; [reflexivity|]. split; [apply kept_have_paragraphs|].
  split; [|apply process_paragraphs_nil].
  rewrite length_map. unfold kept_chapters.
  induction (segments chapter_regex (split_newline content)) as [|seg segs IH];
    [reflexivity|].
  simpl. destruct (truthy (process_paragraphs (snd seg) mode force_indent));
    simpl; rewrite IH; reflexivity.
Qed.

(** C9, as the specification states it, fails: a file of blank lines has no
    line that matches the heading pattern, and gives no chapter at all. *)
Lemma blank_document_no_chapter :
  (forall l, In l (split_newline BLANK_FILE) ->
             default_chapter_pattern (strip l) = false)
  /\ txt_to_epub default_chapter_pattern MODE_SMART true BLANK_FILE = [].
Proof.
  split; [|reflexivity].
  intros l Hl. simpl in Hl. destruct Hl as [<- | [<- | []]]; reflexivity.
Qed.

(** C9, amended. When no non-blank line has a stripped text that matches
    the heading pattern (so, when no trimmed line matches), and some line is
    not blank, the output is one chapter, titled by the preface label, that
    holds the segmentation of the whole line sequence; when every line is
    blank the output has no chapter.  Nothing is raised. *)
Theorem no_heading_preface_only (chapter_regex : str -> bool) (m : seg_mode)
    (force_indent : bool) (content : str) :
  (forall l, In l (split_newline content) ->
             is_heading chapter_regex l = false) ->
  txt_to_epub chapter_regex (mode_name m) force_indent content
  = if existsb (fun l => negb (is_blank l)) (split_newline content)
    then [(PREFACE,
           join NEWLINE
             (process_paragraphs
                (map (seen_as chapter_regex) (split_newline content))
                (mode_name m) force_indent))]
    else [].
Proof.
  intros H. unfold txt_to_epub.
  rewrite chapters_joined, chapter_paras_segments. unfold segments.
  rewrite (no_headings_split chapter_regex _ H).
  unfold kept_chapters, segment_result. cbn [map filter fst snd].
  rewrite has_paragraphs, (seen_as_nonblank chapter_regex _ H).
  destruct (existsb (fun l => negb (is_blank l)) (split_newline content));
    reflexivity.
Qed.

Lemma no_heading_preface_only_witness :
  (forall l, In l (split_newline PLAIN_FILE) ->
             is_heading default_chapter_pattern l = false)
  /\ txt_to_epub default_chapter_pattern MODE_SMART true PLAIN_FILE
     = [(PREFACE,
         p_tag true JIA_STOP ++ NEWLINE ++ p_tag true YI_BANG ++ NEWLINE
         ++ p_tag true BING)].
Proof.
  assert (H : forall l, In l (split_newline PLAIN_FILE) ->
                        is_heading default_chapter_pattern l = false).
  { intros l Hl. simpl in Hl.
    destruct Hl as [<- | [<- | [<- | []]]]; reflexivity. }
  split; [exact H|].
  exact (no_heading_preface_only default_chapter_pattern Smart true
           PLAIN_FILE H).
Defined.

Lemma kept_nothing (mode : str) (add_indent : bool)
    (segs : list (str * list str)) :
  (forall lines, process_paragraphs lines mode add_indent = []) ->
  kept_chapters mode add_indent segs = [].
Proof.
  intros H. unfold kept_chapters, segment_result.
  induction segs as [|seg segs IH]; [reflexivity|].
  simpl. rewrite H. exact IH.
Qed.

(** C10. With a mode string that is none of [line], [blank] and [smart],
    [process_paragraphs] returns the empty list for every chapter, every
    chapter is dropped, and the book has no chapter; nothing is raised. *)
Theorem unknown_mode_no_chapters (chapter_regex : str -> bool) (mode : str)
    (force_indent : bool) (content : str) :
  mode <> MODE_LINE -> mode <> MODE_BLANK -> mode <> MODE_SMART ->
  (forall lines, process_paragraphs lines mode force_indent = [])
  /\ txt_to_epub_paragraphs chapter_regex mode force_indent content = []
  /\ txt_to_epub chapter_regex mode force_indent content = [].
Proof.
  intros H1 H2 H3.
  assert (H : forall lines, process_paragraphs lines mode force_indent = []).
  { intros lines. apply process_paragraphs_unknown; assumption. }
  split; [exact H|].
  unfold txt_to_epub, txt_to_epub_paragraphs.
  rewrite chapters_joined, chapter_paras_segments, (kept_nothing _ _ _ H).
  split; reflexivity.
Qed.

Lemma unknown_mode_no_chapters_witness :
  MODE_OTHER <> MODE_LINE /\ MODE_OTHER <> MODE_BLANK
  /\ MODE_OTHER <> MODE_SMART
  /\ txt_to_epub default_chapter_pattern MODE_OTHER true PLAIN_FILE = [].
Proof.
  assert (H1 : MODE_OTHER <> MODE_LINE) by discriminate.
  assert (H2 : MODE_OTHER <> MODE_BLANK) by discriminate.
  assert (H3 : MODE_OTHER <> MODE_SMART) by discriminate.
  split; [exact H1|]. split; [exact H2|]. split; [exact H3|].
  apply (unknown_mode_no_chapters default_chapter_pattern MODE_OTHER true
           PLAIN_FILE H1 H2 H3).
Defined.

(** ** Further properties of the segmenter *)

Lemma mode_cases (mode : str) :
  (exists m, mode = mode_name m)
  \/ (mode <> MODE_LINE /\ mode <> MODE_BLANK /\ mode <> MODE_SMART).
Proof.
  destruct (list_eq_dec N.eq_dec mode MODE_LINE) as [-> | H1];
    [left; exists Line; reflexivity|].
  destruct (list_eq_dec N.eq_dec mode MODE_BLANK) as [-> | H2];
    [left; exists Blank; reflexivity|].
  destruct (list_eq_dec N.eq_dec mode MODE_SMART) as [-> | H3];
    [left; exists Smart; reflexivity|].
  right. repeat split; assumption.
Qed.

Lemma groups_length_le {A} (groups : list (list A)) :
  Forall (fun g => g <> []) groups ->
  (length groups <= length (concat groups))%nat.
Proof.
  induction 1 as [|g gs Hg _ IH]; simpl; [lia|].
  rewrite length_app. destruct g; [congruence|]. simpl. lia.
Qed.

(** X1. Line mode makes one paragraph of each non-blank line, in order: the
    stripped line inside a paragraph tag, whether the line is indented or
    not; blank lines give nothing, so the paragraph count is the number of
    non-blank lines. *)
Theorem line_mode_paragraphs (lines : list str) (add_indent : bool) :
  process_paragraphs lines MODE_LINE add_indent
  = map (fun l => p_tag add_indent (strip l))
        (filter (fun l => negb (is_blank l)) lines)
  /\ length (process_paragraphs lines MODE_LINE add_indent)
     = length (filter (fun l => negb (is_blank l)) lines).
Proof.
  assert (H : process_paragraphs lines MODE_LINE add_indent
              = map (fun l => p_tag add_indent (strip l))
                    (filter (fun l => negb (is_blank l)) lines)).
  { rewrite (process_paragraphs_groups Line). cbn [mode_groups].
    unfold render_groups, nonblank_texts. rewrite !map_map.
    apply map_ext. intros l. simpl. rewrite app_nil_r. reflexivity. }
  split; [exact H|]. rewrite H. apply length_map.
Qed.

(** X2. Whatever the mode string, a chapter never gets more paragraphs than
    it has non-blank lines. *)
Theorem paragraph_count_bound (lines : list str) (mode : str)
    (add_indent : bool) :
  (length (process_paragraphs lines mode add_indent)
   <= length (filter (fun l => negb (is_blank l)) lines))%nat.
Proof.
  destruct (mode_cases mode) as [[m ->] | [H1 [H2 H3]]].
  - rewrite process_paragraphs_groups. unfold render_groups.
    rewrite length_map.
    pose proof (groups_length_le _ (mode_groups_nonempty m lines)) as H.
    rewrite mode_groups_concat in H. unfold nonblank_texts in H.
    rewrite length_map in H. exact H.
  - rewrite process_paragraphs_unknown by assumption. simpl. lia.
Qed.

(** X3. The force-indent flag changes nothing but the marker: the output
    with the flag is the output without it, with two full-width spaces put
    after the opening tag of each paragraph. *)
Theorem force_indent_marker (lines : list str) (mode : str) :
  process_paragraphs lines mode true
  = map (fun p => P_OPEN ++ [FULLWIDTH_SPACE; FULLWIDTH_SPACE] ++ skipn 3 p)
        (process_paragraphs lines mode false).
Proof.
  destruct (mode_cases mode) as [[m ->] | [H1 [H2 H3]]].
  - rewrite !process_paragraphs_groups. unfold render_groups.
    rewrite map_map. apply map_ext. intros g. reflexivity.
  - rewrite !process_paragraphs_unknown by assumption. reflexivity.
Qed.

Lemma line_segments_length (add_indent : bool) (segs : list (str * list str)) :
  length (concat (map (fun seg =>
            process_paragraphs (snd seg) MODE_LINE add_indent) segs))
  = length (concat (map (fun seg => nonblank_texts (snd seg)) segs)).
Proof.
  induction segs as [|seg segs IH]; [reflexivity|].
  simpl. rewrite !length_app, IH.
  rewrite (process_paragraphs_groups Line). cbn [mode_groups].
  unfold render_groups. rewrite !length_map. reflexivity.
Qed.

(** X4. In line mode the book as a whole has as many paragraphs as the
    input has content lines (non-blank lines that are no headings). *)
Theorem line_mode_total (chapter_regex : str -> bool) (force_indent : bool)
    (content : str) :
  length (concat (map snd
            (txt_to_epub_paragraphs chapter_regex MODE_LINE force_indent
               content)))
  = length (filter (is_content chapter_regex) (split_newline content)).
Proof.
  unfold txt_to_epub_paragraphs.
  rewrite chapter_paras_segments, kept_paragraphs, line_segments_length.
  pose proof (split_content chapter_regex (split_newline content)) as H.
  apply (f_equal (@length str)) in H. rewrite length_map in H.
  rewrite <- H. unfold segments.
  destruct (split_at_headings chapter_regex (split_newline content)).
  simpl. reflexivity.
Qed.

Lemma dropwhile_split {A} (p : A -> bool) (s : list A) :
  exists t, s = t ++ dropwhile p s /\ Forall (fun c => p c = true) t.
Proof.
  induction s as [|c s [t [IH1 IH2]]]; simpl.
  - exists []. split; [reflexivity | constructor].
  - destruct (p c) eqn:E.
    + exists (c :: t). split; [simpl; f_equal; exact IH1|].
      constructor; [exact E | exact IH2].
    + exists []. split; [reflexivity | constructor].
Qed.

(** X5. [remove_indent] only takes indentation characters off the front of
    the line: the line is a run of full-width spaces, spaces and tabs
    followed by the result.  The result starts neither with a space nor
    with a tab, and stripping it gives the stripped line. *)
Theorem remove_indent_only_indentation (line : str) :
  (exists prefix,
     line = prefix ++ remove_indent line
     /\ Forall (fun c => char_in c [FULLWIDTH_SPACE; SPACE; TAB] = true) prefix)
  /\ startswith (remove_indent line) [SPACE] = false
  /\ startswith (remove_indent line) [TAB] = false
  /\ strip (remove_indent line) = strip line.
Proof.
  split; [|split; [|split; [|apply strip_remove_indent]]].
  - unfold remove_indent. destruct line as [|c s];
      [exists []; split; [reflexivity | constructor]|].
    cbn [truthy negb]. unfold lstrip_chars.
    set (p1 := fun c0 : char => char_in c0 [FULLWIDTH_SPACE]).
    set (p2 := fun c0 : char => char_in c0 [SPACE; TAB]).
    destruct (dropwhile_split p1 (c :: s)) as [t1 [E1 F1]].
    destruct (dropwhile_split p2 (dropwhile p1 (c :: s))) as [t2 [E2 F2]].
    exists (t1 ++ t2). split.
    + rewrite <- app_assoc, <- E2. exact E1.
    + apply Forall_app. split.
      * eapply Forall_impl; [|exact F1]. intros d Hd. unfold p1, char_in in Hd.
        unfold char_in. simpl in *. rewrite orb_false_r in Hd. rewrite Hd.
        reflexivity.
      * eapply Forall_impl; [|exact F2]. intros d Hd. unfold p2, char_in in Hd.
        unfold char_in. simpl in *. rewrite Hd. apply orb_true_r.
  - unfold remove_indent. destruct line as [|c s]; [reflexivity|].
    cbn [truthy negb]. unfold lstrip_chars.
    destruct (dropwhile (fun c0 => char_in c0 [SPACE; TAB]) _) as [|d r] eqn:E;
      [reflexivity|].
    apply dropwhile_head in E. unfold char_in in E. simpl in E.
    simpl. destruct (d =? SPACE); [discriminate | reflexivity].
  - unfold remove_indent. destruct line as [|c s]; [reflexivity|].
    cbn [truthy negb]. unfold lstrip_chars.
    destruct (dropwhile (fun c0 => char_in c0 [SPACE; TAB]) _) as [|d r] eqn:E;
      [reflexivity|].
    apply dropwhile_head in E. unfold char_in in E. simpl in E.
    simpl. destruct (d =? TAB); [|reflexivity].
    rewrite orb_true_r in E. discriminate.
Qed.

(** *** Blank lines *)

Lemma fold_left_through {A B} (f : A -> B -> A) (g : B -> B) (xs : list B) :
  (forall a x, f a (g x) = f a x) ->
  forall a, fold_left f (map g xs) a = fold_left f xs a.
Proof.
  intros H. induction xs as [|x xs IH]; intros a; [reflexivity|].
  simpl. rewrite H. apply IH.
Qed.

Lemma strip_nil : strip [] = [].
Proof. reflexivity. Qed.

Lemma line_step_blank (add_indent : bool) (paragraphs : list str)
    (line : str) :
  strip line = [] -> line_step add_indent paragraphs line = paragraphs.
Proof. intros E. unfold line_step. rewrite E. reflexivity. Qed.

Lemma blank_step_blank (add_indent : bool) (st : seg_state) (line : str) :
  strip line = [] ->
  blank_step add_indent st line
  = if truthy (snd st)
    then (fst st ++ [p_tag add_indent (concat (snd st))], [])
    else st.
Proof.
  intros E. unfold blank_step. destruct st as [ps buf]. rewrite E.
  cbn [truthy negb fst snd]. reflexivity.
Qed.

Lemma indent_step_blank (add_indent : bool) (st : seg_state) (line : str) :
  strip line = [] ->
  indent_step add_indent st line
  = if truthy (snd st)
    then (fst st ++ [p_tag add_indent (concat (snd st))], [])
    else st.
Proof.
  intros E. unfold indent_step. destruct st as [ps buf]. rewrite E.
  cbn [truthy negb fst snd]. reflexivity.
Qed.

Lemma punct_step_blank (add_indent : bool) (st : seg_state) (line : str) :
  strip line = [] -> punct_step add_indent st line = st.
Proof.
  intros E. unfold punct_step. destruct st as [ps buf]. rewrite E.
  reflexivity.
Qed.

Lemma blank_to_empty_cases (line : str) :
  blank_to_empty line = line
  \/ (strip line = [] /\ blank_to_empty line = []).
Proof.
  unfold blank_to_empty. destruct (is_blank line) eqn:E; [right | left; reflexivity].
  split; [apply blank_strip; exact E | reflexivity].
Qed.

Lemma blank_to_empty_indented (lines : list str) :
  has_indented_lines (map blank_to_empty lines) = has_indented_lines lines.
Proof.
  unfold has_indented_lines. induction lines as [|l lines IH]; [reflexivity|].
  cbn [map filter].
  destruct (blank_to_empty_cases l) as [-> | [E ->]].
  - destruct (truthy (strip l)); cbn [existsb]; rewrite IH; reflexivity.
  - rewrite strip_nil, E. cbn [truthy]. exact IH.
Qed.

Lemma blank_to_empty_blank (lines : list str) :
  has_blank_lines (map blank_to_empty lines) = has_blank_lines lines.
Proof.
  unfold has_blank_lines. induction lines as [|l lines IH]; [reflexivity|].
  cbn [map existsb]. rewrite IH.
  destruct (blank_to_empty_cases l) as [-> | [E ->]]; [reflexivity|].
  rewrite strip_nil, E. reflexivity.
Qed.

(** X6. Replacing every blank line of a chapter by the empty string, as the
    chapter loop does before it calls the segmenter, does not change the
    paragraphs, whatever the mode string. *)
Theorem blank_lines_as_empty (lines : list str) (mode : str)
    (add_indent : bool) :
  process_paragraphs (map blank_to_empty lines) mode add_indent
  = process_paragraphs lines mode add_indent.
Proof.
  unfold process_paragraphs, process_line, process_blank, process_indent,
    process_punct.
  rewrite blank_to_empty_indented, blank_to_empty_blank.
  rewrite !fold_left_through; [reflexivity| | | |];
    intros a x; destruct (blank_to_empty_cases x) as [-> | [E ->]];
    try reflexivity.
  - rewrite (punct_step_blank _ _ x E). apply punct_step_blank, strip_nil.
  - rewrite (indent_step_blank _ _ x E). apply indent_step_blank, strip_nil.
  - rewrite (blank_step_blank _ _ x E). apply blank_step_blank, strip_nil.
  - rewrite (line_step_blank _ _ x E). apply line_step_blank, strip_nil.
Qed.

Lemma blank_step_twice (add_indent : bool) (st : seg_state) (b1 b2 : str) :
  strip b1 = [] -> strip b2 = [] ->
  blank_step add_indent (blank_step add_indent st b1) b2
  = blank_step add_indent st b1.
Proof.
  intros E1 E2. rewrite (blank_step_blank _ _ b2 E2), (blank_step_blank _ _ b1 E1).
  destruct (truthy (snd st)) eqn:E; cbn [snd truthy]; [reflexivity|].
  rewrite E. reflexivity.
Qed.

Lemma indent_step_twice (add_indent : bool) (st : seg_state) (b1 b2 : str) :
  strip b1 = [] -> strip b2 = [] ->
  indent_step add_indent (indent_step add_indent st b1) b2
  = indent_step add_indent st b1.
Proof.
  intros E1 E2.
  rewrite (indent_step_blank _ _ b2 E2), (indent_step_blank _ _ b1 E1).
  destruct (truthy (snd st)) eqn:E; cbn [snd truthy]; [reflexivity|].
  rewrite E. reflexivity.
Qed.

(** X7. A blank line that follows a blank line has no effect: a chapter
    with two blank lines in a row gives the paragraphs of the chapter with
    one of them, whatever the mode string. *)
Theorem repeated_blank_line (before after : list str) (b1 b2 : str)
    (mode : str) (add_indent : bool) :
  is_blank b1 = true -> is_blank b2 = true ->
  process_paragraphs (before ++ b1 :: b2 :: after) mode add_indent
  = process_paragraphs (before ++ b1 :: after) mode add_indent.
Proof.
  intros H1 H2. apply blank_strip in H1, H2.
  assert (Hi : has_indented_lines (before ++ b1 :: b2 :: after)
               = has_indented_lines (before ++ b1 :: after)).
  { unfold has_indented_lines. rewrite !filter_app. cbn [filter].
    rewrite H1, H2. reflexivity. }
  assert (Hb : has_blank_lines (before ++ b1 :: b2 :: after)
               = has_blank_lines (before ++ b1 :: after)).
  { unfold has_blank_lines. rewrite !existsb_app. cbn [existsb].
    rewrite H1. cbn [truthy negb orb]. reflexivity. }
  unfold process_paragraphs, process_line, process_blank, process_indent,
    process_punct.
  rewrite Hi, Hb, !fold_left_app. cbn [fold_left].
  rewrite (line_step_blank add_indent _ b2 H2),
    (punct_step_blank add_indent _ b2 H2),
    (blank_step_twice add_indent _ b1 b2 H1 H2),
    (indent_step_twice add_indent _ b1 b2 H1 H2).
  reflexivity.
Qed.

Lemma repeated_blank_line_witness :
  is_blank [] = true /\ is_blank [SPACE] = true
  /\ process_paragraphs ([JIA_STOP] ++ [] :: [SPACE] :: [BING]) MODE_SMART true
     = process_paragraphs ([JIA_STOP] ++ [] :: [BING]) MODE_SMART true.
Proof.
  split; [reflexivity|]. split; [reflexivity|].
  apply (repeated_blank_line [JIA_STOP] [BING] [] [SPACE] MODE_SMART true);
    reflexivity.
Defined.

(** *** The punctuation branch *)

Lemma ends_sentence_app (a t : str) :
  ends_sentence t = true -> ends_sentence (a ++ t) = true.
Proof.
  unfold ends_sentence. rewrite rev_app_distr.
  destruct (rev t); [discriminate | intros H; exact H].
Qed.

Lemma concat_snoc {A} (xs : list (list A)) (x : list A) :
  concat (xs ++ [x]) = concat xs ++ x.
Proof. rewrite concat_app. simpl. rewrite app_nil_r. reflexivity. Qed.

Lemma removelast_map {A B} (f : A -> B) (xs : list A) :
  removelast (map f xs) = map f (removelast xs).
Proof.
  induction xs as [|x xs IH]; [reflexivity|].
  destruct xs as [|y ys]; [reflexivity|].
  cbn [map removelast] in *. rewrite IH. reflexivity.
Qed.

Lemma punct_groups_closed (lines : list str) :
  forall buf,
    Forall (fun g => ends_sentence (concat g) = true)
           (removelast (spec_punct_groups buf lines)).
Proof.
  induction lines as [|l lines IH]; intros buf.
  - unfold spec_punct_groups, flush. destruct (truthy buf); constructor.
  - cbn [spec_punct_groups]. destruct (ends_sentence (strip l)) eqn:E;
      [|apply IH].
    specialize (IH []).
    destruct (spec_punct_groups [] lines) as [|g gs]; [constructor|].
    cbn [removelast] in *. constructor; [|exact IH].
    cbv beta zeta.
    replace (concat (buf ++ [strip l])) with (concat buf ++ strip l)
      by (symmetry; apply concat_snoc). apply ends_sentence_app. exact E.
Qed.

Lemma punct_groups_length (lines : list str) :
  forall buf,
    length (spec_punct_groups buf lines)
    = (length (filter (fun l => ends_sentence (strip l)) lines)
       + match lines with
         | [] => if truthy buf then 1 else 0
         | _ :: _ => if ends_sentence (strip (last lines [])) then 0 else 1
         end)%nat.
Proof.
  induction lines as [|l lines IH]; intros buf.
  - unfold spec_punct_groups, flush. destruct (truthy buf); reflexivity.
  - cbn [spec_punct_groups filter]. destruct (ends_sentence (strip l)) eqn:E.
    + cbn [length]. rewrite IH. destruct lines as [|l' lines'].
      * cbn [last truthy]. rewrite E. reflexivity.
      * cbn [last]. reflexivity.
    + rewrite IH. destruct lines as [|l' lines'].
      * cbn [last]. rewrite E. destruct buf; reflexivity.
      * cbn [last]. reflexivity.
Qed.

(** X8. In the punctuation branch of smart mode (no indented non-blank
    line, no blank line) every paragraph except the last one ends with a
    sentence terminator, and the number of paragraphs is the number of
    lines that end with a terminator, plus one if the last line does not. *)
Theorem punctuation_paragraph_ends (lines : list str) (add_indent : bool) :
  has_indented_lines lines = false ->
  has_blank_lines lines = false ->
  Forall (fun p => ends_sentence (para_body add_indent p) = true)
         (removelast (process_paragraphs lines MODE_SMART add_indent))
  /\ length (process_paragraphs lines MODE_SMART add_indent)
     = (length (filter (fun l => ends_sentence (strip l)) lines)
        + match lines with
          | [] => 0
          | _ :: _ => if ends_sentence (strip (last lines [])) then 0 else 1
          end)%nat.
Proof.
  intros Hi Hb. rewrite (process_paragraphs_groups Smart).
  cbn [mode_groups]. unfold smart_branch. rewrite Hi, Hb. split.
  - unfold render_groups. rewrite removelast_map. apply Forall_map.
    eapply Forall_impl; [|apply (punct_groups_closed lines [])].
    intros g Hg. rewrite para_body_p_tag. exact Hg.
  - unfold render_groups. rewrite length_map.
    apply (punct_groups_length lines []).
Qed.

Lemma punctuation_paragraph_ends_witness :
  has_indented_lines SMART_SAMPLE = false
  /\ has_blank_lines SMART_SAMPLE = false
  /\ Forall (fun p => ends_sentence (para_body true p) = true)
       (removelast (process_paragraphs SMART_SAMPLE MODE_SMART true))
  /\ length (process_paragraphs SMART_SAMPLE MODE_SMART true) = 3%nat.
Proof.
  split; [reflexivity|]. split; [reflexivity|].
  exact (punctuation_paragraph_ends SMART_SAMPLE true eq_refl eq_refl).
Defined.

(** *** A file that ends with a newline *)

Lemma split_newline_trailing (content : str) :
  exists first front, split_newline (content ++ NEWLINE) = (first :: front) ++ [[]].
Proof.
  induction content as [|c r [first [front IH]]].
  - exists [], []. reflexivity.
  - cbn [app split_newline]. rewrite IH. destruct (c =? 0x0A).
    + exists [], (first :: front). reflexivity.
    + exists (c :: first), front. reflexivity.
Qed.

Lemma last_segment_blank (chapter_regex : str -> bool) (lines : list str) :
  forall title d,
    In [] (snd (last ((title, fst (split_at_headings chapter_regex (lines ++ [[]])))
                      :: snd (split_at_headings chapter_regex (lines ++ [[]])))
                     d)).
Proof.
  induction lines as [|l lines IH]; intros title d.
  - simpl. left. reflexivity.
  - cbn [app split_at_headings].
    destruct (split_at_headings chapter_regex (lines ++ [[]])) as [cur others].
    cbn [fst snd] in IH.
    destruct (is_blank l); [|destruct (chapter_regex (strip l))]; cbn [fst snd].
    + specialize (IH title d). destruct others as [|o os];
        [right; exact IH | exact IH].
    + exact (IH (strip l) d).
    + specialize (IH title d). destruct others as [|o os];
        [right; exact IH | exact IH].
Qed.

Lemma last_segment_empty_line (chapter_regex : str -> bool)
    (lines : list str) (d : str * list str) :
  In [] (snd (last (segments chapter_regex (lines ++ [[]])) d)).
Proof.
  unfold segments.
  pose proof (last_segment_blank chapter_regex lines PREFACE d) as H.
  revert H. destruct (split_at_headings chapter_regex (lines ++ [[]])).
  cbn [fst snd]. intros H. exact H.
Qed.

Lemma empty_line_blank (lines : list str) :
  In [] lines -> has_blank_lines lines = true.
Proof.
  intros H. unfold has_blank_lines. apply existsb_exists.
  exists []. split; [exact H | reflexivity].
Qed.

Lemma smart_as_blank (lines : list str) (add_indent : bool) :
  smart_branch lines <> ByPunctuation ->
  process_paragraphs lines MODE_SMART add_indent
  = process_paragraphs lines MODE_BLANK add_indent.
Proof.
  intros H. rewrite (process_paragraphs_groups Smart),
    (process_paragraphs_groups Blank).
  cbn [mode_groups]. destruct (smart_branch lines); [|reflexivity|congruence].
  rewrite spec_indent_is_blank. reflexivity.
Qed.

(** X9. When the file ends with a newline, the lines of the last chapter
    end with an empty line; so smart mode never takes the punctuation
    branch for the last chapter of such a file, and segments it as blank
    mode does. *)
Theorem trailing_newline_last_chapter (chapter_regex : str -> bool)
    (add_indent : bool) (content : str) :
  smart_branch
    (snd (last (segments chapter_regex (split_newline (content ++ NEWLINE)))
               (PREFACE, []))) <> ByPunctuation
  /\ process_paragraphs
       (snd (last (segments chapter_regex (split_newline (content ++ NEWLINE)))
                  (PREFACE, []))) MODE_SMART add_indent
     = process_paragraphs
         (snd (last (segments chapter_regex
                       (split_newline (content ++ NEWLINE)))
                    (PREFACE, []))) MODE_BLANK add_indent.
Proof.
  assert (H : smart_branch
                (snd (last (segments chapter_regex
                              (split_newline (content ++ NEWLINE)))
                           (PREFACE, []))) <> ByPunctuation).
  { destruct (split_newline_trailing content) as [first [front E]].
    assert (Hb : has_blank_lines
                   (snd (last (segments chapter_regex
                                 (split_newline (content ++ NEWLINE)))
                              (PREFACE, []))) = true).
    { rewrite E. apply empty_line_blank. apply last_segment_empty_line. }
    unfold smart_branch. rewrite Hb.
    destruct (has_indented_lines _); discriminate. }
  split; [exact H | apply smart_as_blank; exact H].
Qed.

(** *** Counting chapters *)

Lemma split_heading_count (chapter_regex : str -> bool) (lines : list str) :
  length (snd (split_at_headings chapter_regex lines))
  = length (filter (is_heading chapter_regex) lines).
Proof.
  induction lines as [|l lines IH]; [reflexivity|].
  cbn [split_at_headings filter]. unfold is_heading at 1.
  destruct (split_at_headings chapter_regex lines) as [cur others].
  cbn [snd] in IH.
  destruct (is_blank l); cbn [negb andb snd]; [exact IH|].
  destruct (chapter_regex (strip l)); cbn [snd length]; rewrite IH; reflexivity.
Qed.

(** X10. Whatever the mode string, the book has at most one chapter more
    than the input has heading lines. *)
Theorem chapter_count_bound (chapter_regex : str -> bool) (mode : str)
    (force_indent : bool) (content : str) :
  (length (txt_to_epub chapter_regex mode force_indent content)
   <= 1 + length (filter (is_heading chapter_regex) (split_newline content)))%nat.
Proof.
  unfold txt_to_epub.
  rewrite chapters_joined, chapter_paras_segments, length_map.
  unfold kept_chapters.
  eapply Nat.le_trans; [apply filter_length_le|].
  rewrite length_map, <- split_heading_count. unfold segments.
  destruct (split_at_headings chapter_regex (split_newline content)).
  simpl. lia.
Qed.

(** *** Chapter bodies and newlines *)

Lemma split_newline_plain (s : str) :
  no_newline s -> split_newline s = [s].
Proof.
  unfold no_newline. induction s as [|c s IH]; intros H; [reflexivity|].
  cbn [split_newline]. destruct (c =? 0x0A) eqn:E.
  - apply N.eqb_eq in E. exfalso. apply H. left. exact E.
  - rewrite IH; [reflexivity|]. intros Hin. apply H. right. exact Hin.
Qed.

Lemma split_newline_cons (s rest : str) :
  no_newline s ->
  split_newline (s ++ NEWLINE ++ rest) = s :: split_newline rest.
Proof.
  unfold no_newline. induction s as [|c s IH]; intros H; [reflexivity|].
  cbn [app split_newline]. destruct (c =? 0x0A) eqn:E.
  - apply N.eqb_eq in E. exfalso. apply H. left. exact E.
  - cbn [app] in IH. rewrite IH; [reflexivity|].
    intros Hin. apply H. right. exact Hin.
Qed.

Lemma split_join (parts : list str) :
  parts <> [] -> Forall no_newline parts ->
  split_newline (join NEWLINE parts) = parts.
Proof.
  induction parts as [|p parts IH]; intros Hne H; [congruence|].
  destruct parts as [|q parts].
  - simpl. apply split_newline_plain. exact (Forall_inv H).
  - cbn [join]. rewrite split_newline_cons by exact (Forall_inv H).
    f_equal. apply IH; [discriminate | exact (Forall_inv_tail H)].
Qed.

Lemma split_newline_lines (content : str) :
  Forall no_newline (split_newline content).
Proof.
  induction content as [|c r IH]; [constructor; [intros [] | constructor]|].
  cbn [split_newline]. destruct (c =? 0x0A) eqn:E.
  - constructor; [intros [] | exact IH].
  - destruct (split_newline r) as [|h t].
    + constructor; [|constructor]. intros [H | []]. subst c. discriminate.
    + constructor; [|exact (Forall_inv_tail IH)].
      intros [H | H]; [subst c; discriminate|].
      exact (Forall_inv IH H).
Qed.

Lemma strip_in (c : char) (s : str) : In c (strip s) -> In c s.
Proof.
  unfold strip. intros H.
  destruct (rstrip_prefix (lstrip s)) as [t Ht].
  destruct (dropwhile_suffix isspace s) as [u Hu].
  rewrite Hu. apply in_or_app. right. fold (lstrip s). rewrite Ht.
  apply in_or_app. left. exact H.
Qed.

Lemma strip_no_newline (s : str) : no_newline s -> no_newline (strip s).
Proof. unfold no_newline. intros H Hin. apply H. apply strip_in. exact Hin. Qed.

Lemma p_tag_no_newline (add_indent : bool) (text : str) :
  no_newline text -> no_newline (p_tag add_indent text).
Proof.
  unfold no_newline, p_tag. intros H Hin.
  apply in_app_or in Hin. destruct Hin as [Hin | Hin].
  - simpl in Hin. repeat (destruct Hin as [Hin | Hin]; [discriminate|]).
    exact Hin.
  - apply in_app_or in Hin. destruct Hin as [Hin | Hin].
    + destruct add_indent; simpl in Hin;
        repeat (destruct Hin as [Hin | Hin]; [discriminate|]); exact Hin.
    + apply in_app_or in Hin. destruct Hin as [Hin | Hin]; [exact (H Hin)|].
      simpl in Hin. repeat (destruct Hin as [Hin | Hin]; [discriminate|]).
      exact Hin.
Qed.

Lemma paragraphs_no_newline (lines : list str) (mode : str)
    (add_indent : bool) :
  Forall no_newline lines ->
  Forall no_newline (process_paragraphs lines mode add_indent).
Proof.
  intros H. destruct (mode_cases mode) as [[m ->] | [H1 [H2 H3]]].
  - rewrite process_paragraphs_groups. unfold render_groups.
    apply Forall_map. apply Forall_forall. intros g Hg.
    apply p_tag_no_newline. intros Hin. apply in_concat in Hin.
    destruct Hin as [t [Ht Hc]].
    assert (Hin : In t (nonblank_texts lines)).
    { rewrite <- (mode_groups_concat m). apply in_concat.
      exists g. split; assumption. }
    unfold nonblank_texts in Hin. apply in_map_iff in Hin.
    destruct Hin as [l [<- Hl]]. apply filter_In in Hl. destruct Hl as [Hl _].
    rewrite Forall_forall in H. exact (strip_no_newline l (H l Hl) Hc).
  - rewrite process_paragraphs_unknown by assumption. constructor.
Qed.

Lemma segments_no_newline (chapter_regex : str -> bool) (lines : list str) :
  Forall no_newline lines ->
  Forall (fun seg => Forall no_newline (snd seg)) (segments chapter_regex lines).
Proof.
  intros H. apply Forall_forall. intros seg Hseg.
  apply Forall_forall. intros l Hl.
  assert (Hin : In l (rejoin (segments chapter_regex lines))).
  { unfold rejoin. apply in_flat_map. exists seg.
    split; [exact Hseg | right; exact Hl]. }
  rewrite segments_rejoin in Hin. destruct Hin as [Hin | Hin].
  - subst l. intros Hp. simpl in Hp.
    repeat (destruct Hp as [Hp | Hp]; [discriminate|]). exact Hp.
  - apply in_map_iff in Hin. destruct Hin as [l0 [<- Hl0]].
    rewrite Forall_forall in H. specialize (H l0 Hl0).
    unfold seen_as. destruct (is_blank l0); [intros []|].
    destruct (chapter_regex (strip l0));
      [apply strip_no_newline; exact H | exact H].
Qed.

(** X11. The body of every chapter splits back into its paragraphs at the
    newlines: since the lines of the file hold no newline, no paragraph
    does, and each line of a chapter body is one paragraph. *)
Theorem chapter_body_lines (chapter_regex : str -> bool) (mode : str)
    (force_indent : bool) (content : str) :
  map (fun c => split_newline (snd c))
      (txt_to_epub chapter_regex mode force_indent content)
  = map snd (txt_to_epub_paragraphs chapter_regex mode force_indent content).
Proof.
  unfold txt_to_epub, txt_to_epub_paragraphs.
  rewrite chapters_joined, chapter_paras_segments, map_map.
  apply map_ext_in. intros c Hc. unfold joined. cbn [snd].
  unfold kept_chapters in Hc. apply filter_In in Hc. destruct Hc as [Hc Hne].
  apply in_map_iff in Hc. destruct Hc as [seg [<- Hseg]].
  unfold segment_result in *. cbn [snd] in *.
  apply split_join.
  - intros E. rewrite E in Hne. discriminate.
  - apply paragraphs_no_newline.
    pose proof (segments_no_newline chapter_regex _
                  (split_newline_lines content)) as H.
    rewrite Forall_forall in H. exact (H seg Hseg).
Qed.

(** *** Paragraph texts are trimmed *)

Lemma strip_ends_solid (s : str) :
  truthy (strip s) = true -> ends_solid (strip s) = true.
Proof.
  unfold ends_solid, strip, rstrip. rewrite rev_involutive. intros H.
  destruct (dropwhile isspace (rev (lstrip s))) as [|c r] eqn:E;
    [discriminate|].
  simpl. rewrite (dropwhile_head _ _ _ _ E). reflexivity.
Qed.

Lemma ends_solid_app (a t : str) :
  ends_solid t = true -> ends_solid (a ++ t) = true.
Proof.
  unfold ends_solid. rewrite rev_app_distr.
  destruct (rev t); [discriminate | intros H; exact H].
Qed.

Lemma concat_ends_solid (g : list str) :
  g <> [] -> Forall (fun t => ends_solid t = true) g ->
  ends_solid (concat g) = true.
Proof.
  induction g as [|t g IH]; [congruence|]. intros _ H.
  destruct g as [|u g].
  - simpl. rewrite app_nil_r. exact (Forall_inv H).
  - cbn [concat]. apply ends_solid_app.
    apply IH; [discriminate | exact (Forall_inv_tail H)].
Qed.

Lemma nonblank_texts_ends_solid (lines : list str) :
  Forall (fun t => ends_solid t = true) (nonblank_texts lines).
Proof.
  unfold nonblank_texts. apply Forall_map. apply Forall_forall.
  intros l Hl. apply filter_In in Hl. destruct Hl as [_ Hl].
  apply strip_ends_solid. unfold is_blank in Hl.
  destruct (truthy (strip l)); [reflexivity | discriminate].
Qed.

Lemma groups_ends_solid (groups : list (list str)) :
  Forall (fun t => ends_solid t = true) (concat groups) ->
  Forall (fun g => g <> []) groups ->
  Forall (fun g => ends_solid (concat g) = true) groups.
Proof.
  induction groups as [|g gs IH]; intros Ht Hne; [constructor|].
  simpl in Ht. apply Forall_app in Ht. destruct Ht as [Hg Hgs].
  constructor.
  - apply concat_ends_solid; [exact (Forall_inv Hne) | exact Hg].
  - apply IH; [exact Hgs | exact (Forall_inv_tail Hne)].
Qed.

(** X12. Whatever the mode string, the text of every paragraph starts and
    ends with a character that is no white space: paragraphs are never
    empty and carry no leading or trailing white space of the lines. *)
Theorem paragraphs_trimmed (lines : list str) (mode : str)
    (add_indent : bool) :
  Forall (fun p => starts_solid (para_body add_indent p) = true
                   /\ ends_solid (para_body add_indent p) = true)
         (process_paragraphs lines mode add_indent).
Proof.
  destruct (mode_cases mode) as [[m ->] | [H1 [H2 H3]]].
  - rewrite process_paragraphs_groups. unfold render_groups.
    apply Forall_map.
    pose proof (mode_groups_solid m lines) as Hs.
    assert (He : Forall (fun g => ends_solid (concat g) = true)
                   (mode_groups m lines)).
    { apply groups_ends_solid; [|apply mode_groups_nonempty].
      rewrite mode_groups_concat. apply nonblank_texts_ends_solid. }
    rewrite Forall_forall in *. intros g Hg. rewrite para_body_p_tag.
    split; [exact (Hs g Hg) | exact (He g Hg)].
  - rewrite process_paragraphs_unknown by assumption. constructor.
Qed.

(** ** The chapter files *)









(** X14. When a chapter has a blank line or an indented non-blank line,
    smart mode gives the blank-mode output, and its number of paragraphs is
    the number of runs of non-blank lines plus the number of indented lines
    that come in a run after its first line. *)
Theorem smart_delimited_count (lines : list str) (add_indent : bool) :
  smart_branch lines <> ByPunctuation ->
  process_paragraphs lines MODE_SMART add_indent
  = process_paragraphs lines MODE_BLANK add_indent
  /\ length (process_paragraphs lines MODE_SMART add_indent)
     = (count_runs false lines + count_midrun_indented false lines)%nat.
Proof.
  intros H. split; [apply smart_as_blank; exact H|].
  rewrite (smart_as_blank lines add_indent H),
    (process_paragraphs_groups Blank).
  cbn [mode_groups]. unfold render_groups. rewrite length_map.
  apply (blank_groups_length lines []).
Qed.

Lemma smart_delimited_count_witness :
  smart_branch [INDENT ++ JIA_STOP; YI_BANG; []; INDENT ++ BING]
  <> ByPunctuation
  /\ length (process_paragraphs
               [INDENT ++ JIA_STOP; YI_BANG; []; INDENT ++ BING]
               MODE_SMART true) = 2%nat.
Proof.
  assert (H : smart_branch [INDENT ++ JIA_STOP; YI_BANG; []; INDENT ++ BING]
              <> ByPunctuation) by discriminate.
  split; [exact H|].
  exact (proj2 (smart_delimited_count
                  [INDENT ++ JIA_STOP; YI_BANG; []; INDENT ++ BING] true H)).
Defined.
